(** * Gowut: ListBox selection state, the session monitor and the client runtime

    A shallow embedding of

    - [gwu/listbox.go]: the server-side [listBoxImpl] with its selection
      vector, and the value extraction step [preprocessEvent];
    - [gwu/sess_monitor.go]: [sessMonitorImpl.Render], and the static
      JavaScript runtime that follows it in the same source file ([se],
      [procEresp], [setupTimer], [checkSession]).

    Go code that can panic is written in a state-and-panic monad over the
    receiver; JavaScript numbers are IEEE 754 binary64 values, taken from
    the kernel's primitive floats. *)

From Stdlib Require Import ZArith Ascii String List Bool Lia Sorted.
From Stdlib Require Import Floats.
From stdpp Require Import base tactics option list strings gmap.

Local Open Scope Z_scope.

(* ===================================================================== *)
(** * Strings shared by the Go and the JavaScript side *)
(* ===================================================================== *)

Module Str.

(** [strings.Split(s, sep)] of Go and [s.split(sep)] of JavaScript agree
    for a one-character separator: the pieces between consecutive
    occurrences of [sep], so [n] occurrences give [n + 1] pieces and the
    empty string gives the single piece [""] (never the empty list). *)
Fixpoint split (sep : ascii) (s : string) : list string :=
  match s with
  | EmptyString => [EmptyString]
  | String c rest =>
      if Ascii.eqb c sep then EmptyString :: split sep rest
      else match split sep rest with
           | [] => [String c EmptyString]
           | piece :: pieces => String c piece :: pieces
           end
  end.

Definition is_digit (c : ascii) : bool :=
  let n := Z.of_nat (nat_of_ascii c) in (48 <=? n) && (n <=? 57).

Definition digit_value (c : ascii) : Z := Z.of_nat (nat_of_ascii c) - 48.

Definition digit_char (d : Z) : ascii := ascii_of_nat (Z.to_nat (48 + d)).

(** Decimal digits of a non-negative integer, most significant first.
    [fuel] bounds the number of digits. *)
Fixpoint digits_of (fuel : nat) (n : Z) (acc : string) : string :=
  match fuel with
  | O => acc
  | S fuel' =>
      let acc' := String (digit_char (n mod 10)) acc in
      if n / 10 =? 0 then acc' else digits_of fuel' (n / 10) acc'
  end.

(** [strconv.Itoa] of Go, and the decimal form JavaScript gives an integer
    that is printed exactly. *)
Definition itoa (n : Z) : string :=
  let a := Z.abs n in
  let ds := digits_of (S (Z.to_nat (Z.log2 a))) a EmptyString in
  if n <? 0 then String "-"%char ds else ds.

Fixpoint repeat_char (c : ascii) (n : nat) : string :=
  match n with
  | O => EmptyString
  | S n' => String c (repeat_char c n')
  end.

End Str.

(* ===================================================================== *)
(** * Go: the panic monad over a receiver *)
(* ===================================================================== *)

Module Go.

(** Run-time panics of the Go code modelled here. *)
Inductive panic : Type :=
| IndexOutOfRange (index : Z) (len : nat).

Inductive outcome (A : Type) : Type :=
| Returned (a : A)
| Panicked (p : panic).
Arguments Returned {A} a.
Arguments Panicked {A} p.

(** A method with a pointer receiver of type [S]: it runs on the receiver's
    current state and leaves a state behind also when it panics, since the
    writes made before the panic stay in the object. *)
Definition M (S A : Type) : Type := S -> outcome A * S.

Definition ret {S A} (a : A) : M S A := fun s => (Returned a, s).

Definition bind {S A B} (m : M S A) (k : A -> M S B) : M S B :=
  fun s =>
    match m s with
    | (Returned a, s') => k a s'
    | (Panicked p, s') => (Panicked p, s')
    end.

Definition raise {S A} (p : panic) : M S A := fun s => (Panicked p, s).

Definition get {S} : M S S := fun s => (Returned s, s).

Definition put {S} (s : S) : M S unit := fun _ => (Returned tt, s).

(** [for _, x := range xs { body x }] over a list fixed before the loop. *)
Fixpoint for_each {S A} (xs : list A) (body : A -> M S unit) : M S unit :=
  match xs with
  | [] => ret tt
  | x :: xs' => bind (body x) (fun _ => for_each xs' body)
  end.

(** The indices [0, 1, ..., n-1] a [range] loop over a slice of length [n]
    visits; the length is read once, before the first iteration. *)
Definition range_indices (n : nat) : list Z := map Z.of_nat (seq 0 n).

(** Size of [int]: Go fixes it per platform. *)
Inductive word_size : Type := W32 | W64.

Definition IntSize (w : word_size) : Z :=
  match w with W32 => 32 | W64 => 64 end.

Inductive NumError : Type := ErrSyntax | ErrRange.

(** All characters decimal digits, accumulated most significant first. *)
Fixpoint parse_digits (acc : Z) (s : string) : option Z :=
  match s with
  | EmptyString => Some acc
  | String c rest =>
      if Str.is_digit c then parse_digits (10 * acc + Str.digit_value c) rest
      else None
  end.

(** [strconv.Atoi(s)], that is [ParseInt(s, 10, 0)]: an optional sign, then
    one or more decimal digits and nothing else; the value has to fit an
    [int]. [inl i] stands for [(i, nil)], [inr e] for a non-nil error. *)
Definition Atoi (w : word_size) (s : string) : Z + NumError :=
  match s with
  | EmptyString => inr ErrSyntax
  | String c rest =>
      let '(neg, body) :=
        if Ascii.eqb c "+"%char then (false, rest)
        else if Ascii.eqb c "-"%char then (true, rest)
        else (false, s) in
      match body with
      | EmptyString => inr ErrSyntax
      | _ =>
          match parse_digits 0 body with
          | None => inr ErrSyntax
          | Some un =>
              let cutoff := 2 ^ (IntSize w - 1) in
              if negb neg && (cutoff <=? un) then inr ErrRange
              else if neg && (cutoff <? un) then inr ErrRange
              else inl (if neg then - un else un)
          end
      end
  end.

End Go.

Notation "x <- m ;; k" := (Go.bind m (fun x => k))
  (at level 90, m at level 89, right associativity).
Notation "m ;;; k" := (Go.bind m (fun _ => k))
  (at level 90, right associativity).

(* ===================================================================== *)
(** * gwu/listbox.go *)
(* ===================================================================== *)

Module ListBox.
Import Go.

(** [listBoxImpl]. The embedded [compImpl] and [hasEnabledImpl] are not
    read or written by the methods below and are left out. *)
Record listBoxImpl : Type := mkListBox {
  values : list string;   (* Values to choose from *)
  multi : bool;           (* Allow multiple selection *)
  selected : list bool;   (* Array of selection state of the values *)
  rows : Z                (* Number of displayed rows *)
}.

Definition with_selected (sel : list bool) (c : listBoxImpl) : listBoxImpl :=
  {| values := values c; multi := multi c; selected := sel; rows := rows c |}.

(** [NewListBox(values)]: [make([]bool, len(values))] is all [false]. *)
Definition NewListBox (vs : list string) : listBoxImpl :=
  {| values := vs; multi := false;
     selected := replicate (length vs) false; rows := 1 |}.

Definition Multi (c : listBoxImpl) : bool := multi c.

Definition SetMulti (m : bool) : M listBoxImpl unit :=
  fun c => (Returned tt,
            {| values := values c; multi := m;
               selected := selected c; rows := rows c |}).

Definition Rows (c : listBoxImpl) : Z := rows c.

Definition SetRows (r : Z) : M listBoxImpl unit :=
  fun c => (Returned tt,
            {| values := values c; multi := multi c;
               selected := selected c; rows := r |}).

(** [c.selected[i]] read: the Go run time checks the index, which is an
    [int] and may be negative. *)
Definition selected_at (i : Z) : M listBoxImpl bool :=
  c <- get ;;
  if (0 <=? i) && (i <? Z.of_nat (length (selected c))) then
    match selected c !! Z.to_nat i with
    | Some b => ret b
    | None => raise (IndexOutOfRange i (length (selected c)))
    end
  else raise (IndexOutOfRange i (length (selected c))).

(** [c.selected[i] = b]: the Go run time checks the index; out of range
    the write does not happen and the method panics. *)
Definition set_selected_at (i : Z) (b : bool) : M listBoxImpl unit :=
  c <- get ;;
  if (0 <=? i) && (i <? Z.of_nat (length (selected c))) then
    put (with_selected (<[Z.to_nat i := b]> (selected c)) c)
  else raise (IndexOutOfRange i (length (selected c))).

(** [c.values[i]]. *)
Definition value_at (vs : list string) (i : nat) : outcome string :=
  match vs !! i with
  | Some v => Returned v
  | None => Panicked (IndexOutOfRange (Z.of_nat i) (length vs))
  end.

(** The loop of [SelectedValue], from index [i] on. *)
Fixpoint SelectedValue_from (vs : list string) (i : nat) (sel : list bool)
  : outcome string :=
  match sel with
  | [] => Returned EmptyString
  | s :: sel' =>
      if s then value_at vs i else SelectedValue_from vs (S i) sel'
  end.

Definition SelectedValue (c : listBoxImpl) : outcome string :=
  SelectedValue_from (values c) 0 (selected c).

(** The loop of [SelectedValues], from index [i] on, appending to [sv]. *)
Fixpoint SelectedValues_from (vs : list string) (i : nat) (sel : list bool)
    (sv : list string) : outcome (list string) :=
  match sel with
  | [] => Returned sv
  | s :: sel' =>
      if s then
        match value_at vs i with
        | Returned v => SelectedValues_from vs (S i) sel' (sv ++ [v])
        | Panicked p => Panicked p
        end
      else SelectedValues_from vs (S i) sel' sv
  end.

Definition SelectedValues (c : listBoxImpl) : outcome (list string) :=
  SelectedValues_from (values c) 0 (selected c) [].

Definition Selected (i : Z) : M listBoxImpl bool := selected_at i.

(** The loop of [SelectedIndices], from index [i] on, appending to [si]. *)
Fixpoint SelectedIndices_from (i : nat) (sel : list bool) (si : list Z)
  : list Z :=
  match sel with
  | [] => si
  | s :: sel' =>
      SelectedIndices_from (S i) sel' (if s then si ++ [Z.of_nat i] else si)
  end.

Definition SelectedIndices (c : listBoxImpl) : list Z :=
  SelectedIndices_from 0 (selected c) [].

Definition SetSelected (i : Z) (b : bool) : M listBoxImpl unit :=
  set_selected_at i b.

Definition ClearSelected : M listBoxImpl unit :=
  c <- get ;;
  for_each (range_indices (length (selected c)))
           (fun i => set_selected_at i false).

Definition SetSelectedIndices (indices : list Z) : M listBoxImpl unit :=
  (* First clear selected slice *)
  c <- get ;;
  for_each (range_indices (length (selected c)))
           (fun i => set_selected_at i false) ;;;
  (* And now select that needs to be selected *)
  for_each indices (fun idx => set_selected_at idx true).

(** [preprocessEvent(event, r)], on [value = r.FormValue(paramCompValue)]. *)
Definition preprocessEvent (w : word_size) (value : string)
  : M listBoxImpl unit :=
  if (String.length value =? 0)%nat then ret tt
  else
    ClearSelected ;;;
    for_each (Str.split ","%char value)
             (fun sidx =>
                match Atoi w sidx with
                | inl idx => set_selected_at idx true
                | inr _ => ret tt
                end).

(** The invariant of the data model: one selection flag per value. *)
Definition selection_invariant (c : listBoxImpl) : Prop :=
  length (selected c) = length (values c).

Definition in_range (c : listBoxImpl) (i : Z) : Prop :=
  0 <= i < Z.of_nat (length (selected c)).

(** What the methods that set the selection leave alone: the values, the
    flags, and the length of the selection vector. *)
Definition same_shape (c c' : listBoxImpl) : Prop :=
  values c' = values c /\ multi c' = multi c /\ rows c' = rows c /\
  length (selected c') = length (selected c).

(** The vector after the iterations [j, j+1, ..., j+k-1] of the clearing
    loop. *)
Fixpoint cleared (j k : nat) (l : list bool) : list bool :=
  match k with
  | O => l
  | S k' => cleared (S j) k' (<[j := false]> l)
  end.

(** The vector after the selecting loop has run over in-range [indices]. *)
Definition select_all (l : list bool) (indices : list Z) : list bool :=
  fold_left (fun l idx => <[Z.to_nat idx := true]> l) indices l.

(** The pieces of a submitted value that [Atoi] accepts, as indices. *)
Definition parsed_indices (w : word_size) (value : string) : list Z :=
  flat_map (fun sidx => match Atoi w sidx with inl idx => [idx] | inr _ => [] end)
           (Str.split ","%char value).

End ListBox.

(* ===================================================================== *)
(** * JavaScript: numbers, and the built-ins the static runtime calls *)
(* ===================================================================== *)

Module Js.

(** A JavaScript Number is an IEEE 754 binary64 value. *)
Abbreviation Number := PrimFloat.float.

Definition NaN : Number := PrimFloat.nan.

(** The Number value of a mathematical integer: round to nearest, ties to
    even. *)
Definition of_Z (z : Z) : Number :=
  SF2Prim (binary_normalize prec emax z 0 false).

(** ** Number to string (ECMAScript 9.8.1) *)

(** [10^q] as a fraction [(a, b)] of positive integers. *)
Definition pow10_frac (q : Z) : Z * Z :=
  if 0 <=? q then (10 ^ q, 1) else (1, 10 ^ (- q)).

(** The positive value [x * 2^e] as a fraction. *)
Definition dyadic_frac (x e : Z) : Z * Z :=
  if 0 <=? e then (x * 2 ^ e, 1) else (x, 2 ^ (- e)).

(** [num/den < 10^p]. *)
Definition below_pow10 (num den p : Z) : bool :=
  let '(a, b) := pow10_frac p in num * b <? den * a.

(** The [p] with [10^(p-1) <= num/den < 10^p], searched upwards from an
    estimate taken from the bit lengths. *)
Definition decimal_exponent (num den : Z) : Z :=
  let est := ((Z.log2 num - Z.log2 den) * 30103) / 100000 - 2 in
  match find (below_pow10 num den) (map (fun i => est + Z.of_nat i) (seq 0 8)) with
  | Some p => p
  | None => est
  end.

Fixpoint strip_zeros (fuel : nat) (s q : Z) : Z * Z :=
  match fuel with
  | O => (s, q)
  | S fuel' =>
      if (s mod 10 =? 0) && negb (s =? 0) then strip_zeros fuel' (s / 10) (q + 1)
      else (s, q)
  end.

(** The candidates with [k] significant digits next to the value: the
    largest one not above it and the smallest one not below it; the one
    that reads back as the same Number and is closest is kept (the even
    one when both are as close). The result is [(s, q)], standing for
    [s * 10^q]. The Number is [m * 2^e]; its rounding interval is closed
    when [m] is even. *)
Definition digits_candidate (m : positive) (e : Z) (p k : Z) : option (Z * Z) :=
  let narrow := (Zpos m =? 2 ^ 52) && (-1074 <? e) in
  let '(nv, d) := dyadic_frac (4 * Zpos m) (e - 2) in
  let '(nlo, _) := dyadic_frac (4 * Zpos m - (if narrow then 1 else 2)) (e - 2) in
  let '(nhi, _) := dyadic_frac (4 * Zpos m + 2) (e - 2) in
  let q := p - k in
  let '(a, b) := pow10_frac q in
  let s_lo := (nv * b) / (d * a) in
  let s_hi := if (nv * b) mod (d * a) =? 0 then s_lo else s_lo + 1 in
  let closed := Z.even (Zpos m) in
  let inside s :=
    let c := s * a * d in
    if closed then (nlo * b <=? c) && (c <=? nhi * b)
    else (nlo * b <? c) && (c <? nhi * b) in
  let dist s := Z.abs (nv * b - s * a * d) in
  match inside s_lo, inside s_hi with
  | false, false => None
  | true, false => Some (s_lo, q)
  | false, true => Some (s_hi, q)
  | true, true =>
      if dist s_lo <? dist s_hi then Some (s_lo, q)
      else if dist s_hi <? dist s_lo then Some (s_hi, q)
      else if Z.even s_lo then Some (s_lo, q) else Some (s_hi, q)
  end.

Fixpoint first_candidate (m : positive) (e p : Z) (ks : list Z) : Z * Z :=
  match ks with
  | [] => (Zpos m, 0)
  | k :: ks' =>
      match digits_candidate m e p k with
      | Some r => r
      | None => first_candidate m e p ks'
      end
  end.

(** The integers [(s, n, k)] of the algorithm: [k] digits [s], as few as
    possible, with [s * 10^(n-k)] reading back as [m * 2^e]. *)
Definition shortest_digits (m : positive) (e : Z) : Z * Z * Z :=
  let '(nv, d) := dyadic_frac (Zpos m) e in
  let p := decimal_exponent nv d in
  let '(s0, q0) := first_candidate m e p (map Z.of_nat (seq 1 17)) in
  let '(s, q) := strip_zeros 400 s0 q0 in
  let k := Z.of_nat (String.length (Str.itoa s)) in
  (s, q + k, k).

Definition format_digits (s n k : Z) : string :=
  let ds := Str.itoa s in
  let exponent :=
    String "e"%char
      (String (if 0 <=? n - 1 then "+"%char else "-"%char)
              (Str.itoa (Z.abs (n - 1)))) in
  if (k <=? n) && (n <=? 21) then
    String.append ds (Str.repeat_char "0"%char (Z.to_nat (n - k)))
  else if (0 <? n) && (n <=? 21) then
    String.append (String.substring 0 (Z.to_nat n) ds)
      (String "."%char (String.substring (Z.to_nat n) (Z.to_nat (k - n)) ds))
  else if (-6 <? n) && (n <=? 0) then
    String "0"%char (String "."%char
      (String.append (Str.repeat_char "0"%char (Z.to_nat (- n))) ds))
  else if k =? 1 then String.append ds exponent
  else
    String.append (String.substring 0 1 ds)
      (String "."%char
         (String.append (String.substring 1 (Z.to_nat (k - 1)) ds) exponent)).

(** [ToString] applied to a Number. *)
Definition NumberToString (x : Number) : string :=
  match Prim2SF x with
  | S754_nan => "NaN"
  | S754_zero _ => "0"
  | S754_infinity false => "Infinity"
  | S754_infinity true => "-Infinity"
  | S754_finite sgn m e =>
      let '(s, n, k) := shortest_digits m e in
      let body := format_digits s n k in
      if sgn then String "-"%char body else body
  end.

(** ** [Math.round] (ECMAScript 15.8.2.15): the integer closest to [x],
    the one towards plus infinity when two are as close; a zero result
    keeps the sign of [x]. *)
Definition Math_round (x : Number) : Number :=
  match Prim2SF x with
  | S754_finite sgn m e =>
      if 0 <=? e then x
      else
        let den := 2 ^ (- e) in
        let num := if sgn then - Zpos m else Zpos m in
        let z := (2 * num + den) / (2 * den) in
        if z =? 0 then (if sgn then PrimFloat.neg_zero else PrimFloat.zero)
        else of_Z z
  | _ => x
  end.

(** ** [parseInt(string)] without a radix (ECMAScript 15.1.2.2) *)

(** [StrWhiteSpaceChar], as far as one-byte code units go. *)
Definition is_space (c : ascii) : bool :=
  let n := Z.of_nat (nat_of_ascii c) in
  ((9 <=? n) && (n <=? 13)) || (n =? 32) || (n =? 160).

Fixpoint skip_space (s : string) : string :=
  match s with
  | String c rest => if is_space c then skip_space rest else s
  | EmptyString => s
  end.

Definition radix_digit (radix : Z) (c : ascii) : option Z :=
  let n := Z.of_nat (nat_of_ascii c) in
  let v := if (48 <=? n) && (n <=? 57) then n - 48
           else if (97 <=? n) && (n <=? 122) then n - 87
           else if (65 <=? n) && (n <=? 90) then n - 55
           else 36 in
  if v <? radix then Some v else None.

(** The value of the longest prefix of radix digits; [None] when that
    prefix is empty. *)
Fixpoint radix_prefix (radix : Z) (acc : option Z) (s : string) : option Z :=
  match s with
  | EmptyString => acc
  | String c rest =>
      match radix_digit radix c with
      | Some v =>
          radix_prefix radix
            (Some (radix * (match acc with Some a => a | None => 0 end) + v)) rest
      | None => acc
      end
  end.

Definition parseInt (input : string) : Number :=
  let s := skip_space input in
  let '(neg, s1) :=
    match s with
    | String c rest =>
        if Ascii.eqb c "-"%char then (true, rest)
        else if Ascii.eqb c "+"%char then (false, rest)
        else (false, s)
    | EmptyString => (false, s)
    end in
  let '(radix, s2) :=
    match s1 with
    | String c0 (String c1 rest) =>
        if Ascii.eqb c0 "0"%char && (Ascii.eqb c1 "x"%char || Ascii.eqb c1 "X"%char)
        then (16, rest) else (10, s1)
    | _ => (10, s1)
    end in
  match radix_prefix radix None s2 with
  | None => NaN
  | Some mathInt =>
      let number := of_Z mathInt in
      if neg then PrimFloat.opp number else number
  end.

(** ** [parseFloat(string)] (ECMAScript 15.1.2.3) *)

(** The longest prefix of decimal digits and what follows it. *)
Fixpoint span_digits (s : string) : string * string :=
  match s with
  | String c rest =>
      if Str.is_digit c then
        let '(ds, tl) := span_digits rest in (String c ds, tl)
      else (EmptyString, s)
  | EmptyString => (EmptyString, s)
  end.

(** The value of a string of decimal digits; the empty string counts 0. *)
Fixpoint digits_value (acc : Z) (ds : string) : Z :=
  match ds with
  | EmptyString => acc
  | String c rest => digits_value (10 * acc + Str.digit_value c) rest
  end.

(** An [ExponentPart] at the head of [s], if there is one: [e] or [E],
    an optional sign, and at least one digit. *)
Definition exponent_part (s : string) : Z :=
  match s with
  | String c rest =>
      if Ascii.eqb c "e"%char || Ascii.eqb c "E"%char then
        let '(neg, rest') :=
          match rest with
          | String c' r =>
              if Ascii.eqb c' "-"%char then (true, r)
              else if Ascii.eqb c' "+"%char then (false, r)
              else (false, rest)
          | EmptyString => (false, rest)
          end in
        let '(ds, _) := span_digits rest' in
        match ds with
        | EmptyString => 0
        | _ => if neg then - digits_value 0 ds else digits_value 0 ds
        end
      else 0
  | EmptyString => 0
  end.

(** The Number value of [d * 10^k] for [d > 0]: round to nearest, ties to
    even. For [k < 0] the quotient is taken with spare bits and the
    position of the remainder against one half. *)
Definition of_decimal (neg : bool) (d : positive) (k : Z) : Number :=
  if 0 <=? k then
    SF2Prim (binary_normalize prec emax
               ((if neg then Zneg d else Zpos d) * 10 ^ k) 0 false)
  else
    let q := 10 ^ (- k) in
    let sh := Z.max 0 (Z.log2 q - Z.log2 (Zpos d) + 56) in
    let n := Zpos d * 2 ^ sh in
    let m := n / q in
    let r := n mod q in
    let loc :=
      if r =? 0 then loc_Exact else loc_Inexact (Z.compare (2 * r) q) in
    SF2Prim (binary_round_aux prec emax neg m (- sh) loc).

Definition parseFloat (input : string) : Number :=
  let s := skip_space input in
  let '(neg, s1) :=
    match s with
    | String c rest =>
        if Ascii.eqb c "-"%char then (true, rest)
        else if Ascii.eqb c "+"%char then (false, rest)
        else (false, s)
    | EmptyString => (false, s)
    end in
  if String.prefix "Infinity" s1 then
    (if neg then PrimFloat.neg_infinity else PrimFloat.infinity)
  else
    let '(int_ds, s2) := span_digits s1 in
    let '(frac_ds, s3) :=
      match s2 with
      | String c rest =>
          if Ascii.eqb c "."%char then span_digits rest
          else (EmptyString, s2)
      | EmptyString => (EmptyString, s2)
      end in
    match int_ds, frac_ds with
    | EmptyString, EmptyString => NaN
    | _, _ =>
        let d := digits_value (digits_value 0 int_ds) frac_ds in
        let k := exponent_part s3 - Z.of_nat (String.length frac_ds) in
        match d with
        | Zpos p => of_decimal neg p k
        | _ => if neg then PrimFloat.neg_zero else PrimFloat.zero
        end
    end.

End Js.

(* ===================================================================== *)
(** * The static JavaScript runtime (second part of gwu/sess_monitor.go) *)
(* ===================================================================== *)

Module Client.
Import Js.

(** ** Values that occur in the modifier-key lines of [se] *)

Inductive value : Type :=
| Undefined
| Boolean (b : bool)
| Num (x : Number).

Definition ToNumber (v : value) : Number :=
  match v with
  | Undefined => NaN
  | Boolean b => if b then PrimFloat.one else PrimFloat.zero
  | Num x => x
  end.

Definition ToBoolean (v : value) : bool :=
  match v with
  | Undefined => false
  | Boolean b => b
  | Num x => negb (PrimFloat.is_zero x || PrimFloat.is_nan x)
  end.

Definition ToString (v : value) : string :=
  match v with
  | Undefined => "undefined"
  | Boolean b => if b then "true" else "false"
  | Num x => NumberToString x
  end.

(** [a + b] when neither operand is a string: numeric addition. *)
Definition add (a b : value) : value :=
  Num (PrimFloat.add (ToNumber a) (ToNumber b)).

(** The modifier state a DOM keyboard or mouse event carries. *)
Record DomEvent : Type := mkEvent {
  altKey : bool;
  ctrlKey : bool;
  metaKey : bool;
  shiftKey : bool
}.

(** [event.name]: a property the event object does not have reads as
    [undefined]. *)
Definition prop (event : DomEvent) (name : string) : value :=
  if String.eqb name "altKey" then Boolean (altKey event)
  else if String.eqb name "ctrlKey" then Boolean (ctrlKey event)
  else if String.eqb name "metaKey" then Boolean (metaKey event)
  else if String.eqb name "shiftKey" then Boolean (shiftKey event)
  else Undefined.

(** ** What a call of the runtime does to the page *)

Inductive effect : Type :=
| Alert (msg : string)                 (* window.alert(msg) *)
| RerenderComp (compId : string)       (* rerenderComp(compId) *)
| FocusComp (compId : Number)          (* focusComp(compId) *)
| SetLocationHref (url : string)       (* window.location.href = url *)
| LocationReload.                      (* window.location.reload(true) *)

(** ** Timers *)

(** An entry of the global [timers] object. The timeout is a whole number
    of milliseconds: the server writes it from an [int]. *)
Record timer : Type := mkTimer {
  timer_js : string;
  timer_timeout : Z;
  timer_repeat : bool;
  timer_reset : bool;
  timer_id : Z           (* handle returned by setInterval / setTimeout *)
}.

(** A property of [timers] is absent ([undefined]), [null], or a timer. *)
Inductive slot : Type :=
| Null
| Obj (t : timer).

(** A timer the window has scheduled and not yet cleared. [sched_owner] is
    bookkeeping of the model: the component id whose [setupTimer] call
    scheduled it. *)
Record scheduled : Type := mkScheduled {
  sched_js : string;
  sched_timeout : Z;
  sched_repeat : bool;   (* setInterval rather than setTimeout *)
  sched_owner : Z
}.

Record window : Type := mkWindow {
  timers : gmap Z slot;            (* var timers = new Object() *)
  active : gmap Z scheduled;       (* the window's list of active timers *)
  next_handle : Z                  (* handles are handed out in sequence *)
}.

Inductive timer_call : Type :=
| ClearInterval (handle : Z)
| ClearTimeout (handle : Z)
| SetInterval (js : string) (timeout : Z) (handle : Z)
| SetTimeout (js : string) (timeout : Z) (handle : Z).

Definition is_set_call (c : timer_call) : bool :=
  match c with
  | SetInterval _ _ _ | SetTimeout _ _ _ => true
  | _ => false
  end.

(** [timer.js != js || timer.timeout != timeout || timer.repeat != repeat
    || timer.reset != reset] *)
Definition changed (t : timer) (js : string) (timeout : Z)
    (repeat reset : bool) : bool :=
  negb (String.eqb (timer_js t) js)
  || negb (timer_timeout t =? timeout)
  || negb (Bool.eqb (timer_repeat t) repeat)
  || negb (Bool.eqb (timer_reset t) reset).

(** [if (timer.repeat) clearInterval(timer.id); else clearTimeout(timer.id);] *)
Definition clear_call (t : timer) : timer_call :=
  if timer_repeat t then ClearInterval (timer_id t)
  else ClearTimeout (timer_id t).

(** [if (timer.repeat) timer.id = setInterval(js, timeout); else timer.id =
    setTimeout(js, timeout);] where the window answers with the handle
    [h]. *)
Definition set_call (js : string) (timeout : Z) (repeat : bool) (h : Z)
  : timer_call :=
  if repeat then SetInterval js timeout h else SetTimeout js timeout h.

(** The timer is cleared, then [timers[compId] = null]. *)
Definition teardown (compId : Z) (t : timer) (w : window)
  : window * list timer_call :=
  ({| timers := <[compId := Null]> (timers w);
      active := delete (timer_id t) (active w);
      next_handle := next_handle w |},
   [clear_call t]).

(** The tail of [setupTimer]: create the entry and start the timer. *)
Definition install (compId : Z) (js : string) (timeout : Z)
    (repeat reset : bool) (w : window) : window * list timer_call :=
  let h := next_handle w in
  ({| timers := <[compId := Obj (mkTimer js timeout repeat reset h)]> (timers w);
      active := <[h := mkScheduled js timeout repeat compId]> (active w);
      next_handle := h + 1 |},
   [set_call js timeout repeat h]).

(** [setupTimer(compId, js, timeout, repeat, active, reset)]: the window
    afterwards and the timer calls made, in order. *)
Definition setupTimer (compId : Z) (js : string) (timeout : Z)
    (repeat active_ reset : bool) (w : window) : window * list timer_call :=
  match timers w !! compId with
  | Some (Obj t) =>                                   (* timer != null *)
      let ch := changed t js timeout repeat reset in
      let '(w1, calls1) :=
        if negb active_ || ch then teardown compId t w else (w, []) in
      if negb ch then (w1, calls1)
      else if negb active_ then (w1, calls1)
      else
        let '(w2, calls2) := install compId js timeout repeat reset w1 in
        (w2, calls1 ++ calls2)
  | _ =>
      if negb active_ then (w, [])
      else install compId js timeout repeat reset w
  end.

(** The parameters of a call are those the timer [t] was set up with. *)
Definition same_params (t : timer) (js : string) (timeout : Z)
    (repeat reset : bool) : Prop :=
  timer_js t = js /\ timer_timeout t = timeout /\
  timer_repeat t = repeat /\ timer_reset t = reset.

(** The active timers that were scheduled for component [compId]. *)
Definition timers_of (w : window) (compId : Z) : gmap Z scheduled :=
  filter (fun hs => sched_owner (snd hs) = compId) (active w).

(** Every active timer is the one recorded in the table for its
    component. *)
Definition table_owns_active (w : window) : Prop :=
  forall h s, active w !! h = Some s ->
    exists t, timers w !! sched_owner s = Some (Obj t) /\ timer_id t = h.

(** Handles in use or on record are older than the next one. *)
Definition handles_in_sequence (w : window) : Prop :=
  (forall h s, active w !! h = Some s -> h < next_handle w) /\
  (forall c t, timers w !! c = Some (Obj t) -> timer_id t < next_handle w).

Definition well_formed (w : window) : Prop :=
  table_owns_active w /\ handles_in_sequence w.

Definition empty_window : window :=
  {| timers := ∅; active := ∅; next_handle := 1 |}.

(** A timer started by setTimeout runs once: when it fires it leaves the
    window's active timers. The [timers] object is not told. *)
Definition fire_timeout (h : Z) (w : window) : window :=
  match active w !! h with
  | Some s =>
      if sched_repeat s then w
      else {| timers := timers w; active := delete h (active w);
              next_handle := next_handle w |}
  | None => w
  end.

(** ** The session monitor's element *)

(** The element of a SessMonitor: its class list and the text of its
    first child, the placeholder span Render writes. *)
Record element : Type := mkElement {
  classList : list string;
  child0_innerText : string
}.

(** [classList.add(token)] *)
Definition classList_add (token : string) (cl : list string) : list string :=
  if existsb (String.eqb token) cl then cl else cl ++ [token].

(** [classList.remove(token)] *)
Definition classList_remove (token : string) (cl : list string) : list string :=
  List.filter (fun t => negb (String.eqb t token)) cl.

Definition has_class (token : string) (e : element) : bool :=
  existsb (String.eqb token) (classList e).

Record xmlhttp : Type := mkXhr {
  readyState : Z;
  status : Z;
  responseText : string
}.

(** The body of the [onreadystatechange] handler of [checkSession], from
    [timeoutSec] on. *)
Definition show_timeout (timeoutSec : Number) (e : element) : element :=
  if PrimFloat.ltb timeoutSec 0%float then
    {| classList := classList_add "gwu-SessMonitor-Expired" (classList e);
       child0_innerText := "Expired!" |}
  else
    let cl := classList_remove "gwu-SessMonitor-Expired" (classList e) in
    if PrimFloat.ltb timeoutSec 60%float then
      {| classList := cl; child0_innerText := "<1 min" |}
    else
      {| classList := cl;
         child0_innerText :=
           "~" +:+ NumberToString (Math_round (PrimFloat.div timeoutSec 60%float))
               +:+ " min" |}.

(** The [onreadystatechange] handler of [checkSession]. *)
Definition checkSession_onreadystatechange (x : xmlhttp) (e : element)
  : element :=
  if (readyState x =? 4) && (status x =? 200) then
    let timeoutSec := parseFloat (responseText x) in
    show_timeout timeoutSec e
  else e.

(** [checkSession(compId)], on [document.getElementById(compId)] and the
    answer to the synchronous request: the element afterwards, if there
    is one. *)
Definition checkSession (found : option element) (x : xmlhttp)
  : option element :=
  match found with
  | None => None       (* Component removed or not visible *)
  | Some e => Some (checkSession_onreadystatechange x e)
  end.

Section Runtime.

(** The constants the Go side writes in front of the script; the Go
    declarations they are printed from are outside the given sources. *)
Variable _pModKeys : string.
Variables _modKeyAlt _modKeyCtlr _modKeyMeta _modKeyShift : Number.
Variables _eraNoAction _eraReloadWin _eraDirtyComps _eraFocusComp : Number.
Variable _pathApp : string.

(** [se], the lines from [var modKeys;] to the last [modKeys +=]. *)
Definition se_modKeys (event : DomEvent) : value :=
  let modKeys := Undefined in
  let modKeys :=
    add modKeys (if ToBoolean (prop event "altKey")
                 then Num _modKeyAlt else Num 0%float) in
  let modKeys :=
    add modKeys (if ToBoolean (prop event "ctlrKey")
                 then Num _modKeyCtlr else Num 0%float) in
  let modKeys :=
    add modKeys (if ToBoolean (prop event "metaKey")
                 then Num _modKeyMeta else Num 0%float) in
  let modKeys :=
    add modKeys (if ToBoolean (prop event "shiftKey")
                 then Num _modKeyShift else Num 0%float) in
  modKeys.

(** [se]: what [data += "&" + _pModKeys + "=" + modKeys] appends. *)
Definition se_modKeys_field (event : DomEvent) : string :=
  "&" +:+ _pModKeys +:+ "=" +:+ ToString (se_modKeys event).

(** One iteration of the loop of [procEresp], on [actions[i]]. *)
Definition procAction (action : string) : list effect :=
  match Str.split ","%char action with
  | [] => [Alert "Unknown response code:undefined"]
  | n0 :: rest =>
      let code := parseInt n0 in
      if PrimFloat.eqb code _eraDirtyComps then map RerenderComp rest
      else if PrimFloat.eqb code _eraFocusComp then
        match rest with
        | n1 :: _ => [FocusComp (parseInt n1)]
        | [] => []
        end
      else if PrimFloat.eqb code _eraNoAction then []
      else if PrimFloat.eqb code _eraReloadWin then
        match rest with
        | n1 :: _ =>
            if (0 <? String.length n1)%nat
            then [SetLocationHref (_pathApp +:+ n1)]
            else [LocationReload]
        | [] => [LocationReload]
        end
      else [Alert ("Unknown response code:" +:+ n0)]
  end.

(** [procEresp(xmlhttp)], on [xmlhttp.responseText]. *)
Definition procEresp (responseText : string) : list effect :=
  let actions := Str.split ";"%char responseText in
  if (length actions =? 0)%nat then [Alert "No response received!"]
  else concat (map procAction actions).

End Runtime.

End Client.

(* ===================================================================== *)
(** * gwu/sess_monitor.go: the SessMonitor component *)
(* ===================================================================== *)

Module SessMonitor.

(** The string holding one double quote. *)
Definition dquote : string := String "034"%char EmptyString.

(** What [Render] uses and the file does not declare: the byte strings it
    writes, [Writev] of the Writer on an [int] and on a [bool], and what
    [renderAttrsAndStyle] and [renderEHandlers] write for the component. *)
Record env : Type := mkEnv {
  strSpanOp : string;
  strGT : string;
  strScriptOp : string;
  strComma : string;
  strQuote : string;
  strJsParamCl : string;
  strParenCl : string;
  strSemicol : string;
  strScriptCl : string;
  strSpanCl : string;
  Writev_int : Z -> string;
  Writev_bool : bool -> string;
  renderAttrsAndStyle : string;
  renderEHandlers : string
}.

Definition strEmptySpan : string := "<span></span>".
Definition strJsCheckSessOp : string := "checkSession(".

(** A Writer, as the bytes written to it so far. *)
Definition Writer : Type := string.

Definition Write (bytes : string) (w : Writer) : Writer := w +:+ bytes.

(** [sessMonitorImpl.Render(w)] for the component with id [id]. *)
Definition Render (E : env) (id : Z) (w : Writer) : Writer :=
  let w := Write (strSpanOp E) w in
  let w := Write (renderAttrsAndStyle E) w in
  let w := Write (renderEHandlers E) w in
  let w := Write (strGT E) w in
  let w := Write strEmptySpan w in        (* Placeholder for timeout value *)
  let w := Write (strScriptOp E) w in
  let w := Write (Writev_int E id) w in
  let w := Write (strComma E) w in
  (* js param *)
  let w := Write (strQuote E) w in
  let w := Write strJsCheckSessOp w in
  let w := Write (Writev_int E id) w in
  let w := Write (strJsParamCl E) w in
  (* end of js param *)
  let w := Write (strComma E) w in
  let w := Write (Writev_int E (60 * 1000)) w in   (* 1 min *)
  let w := Write (strComma E) w in
  let w := Write (Writev_bool E true) w in         (* Repeat *)
  let w := Write (strComma E) w in
  let w := Write (Writev_bool E true) w in         (* Active *)
  let w := Write (strComma E) w in
  let w := Write (Writev_bool E false) w in        (* Reset *)
  let w := Write (strParenCl E) w in
  let w := Write (strSemicol E) w in
  (* Call sess check right away: *)
  let w := Write strJsCheckSessOp w in
  let w := Write (Writev_int E id) w in
  let w := Write (strScriptCl E) w in
  Write (strSpanCl E) w.

(** Modelled from the spec: the byte-string constants and the Writer's
    [Writev] are declared outside the given sources. The values are the
    ones under which [Render] writes the script that the comment in its
    body documents: setupTimer(compId, checkSession(compId) as a quoted
    string, 60000, true, true, false); checkSession(compId); between the
    script tags. [attrs] and [ehandlers] stand for what the component's
    attribute and handler rendering writes. *)
Definition gowut_env (attrs ehandlers : string) : env :=
  {| strSpanOp := "<span";
     strGT := ">";
     strScriptOp := "<script>setupTimer(";
     strComma := ",";
     strQuote := dquote;
     strJsParamCl := ")" +:+ dquote;
     strParenCl := ")";
     strSemicol := ";";
     strScriptCl := ");</script>";
     strSpanCl := "</span>";
     Writev_int := Str.itoa;
     Writev_bool := fun b => if b then "true" else "false";
     renderAttrsAndStyle := attrs;
     renderEHandlers := ehandlers |}.

(** ** The script as a program: calls of runtime functions *)

Inductive js_arg : Type :=
| ArgInt (z : Z)
| ArgStr (s : string)
| ArgBool (b : bool).

Inductive js_stmt : Type :=
| Call (f : string) (args : list js_arg).

Definition print_arg (a : js_arg) : string :=
  match a with
  | ArgInt z => Str.itoa z
  | ArgStr s => dquote +:+ s +:+ dquote
  | ArgBool b => if b then "true" else "false"
  end.

Fixpoint print_args (args : list js_arg) : string :=
  match args with
  | [] => ""
  | [a] => print_arg a
  | a :: rest => print_arg a +:+ "," +:+ print_args rest
  end.

Definition print_stmt (s : js_stmt) : string :=
  match s with
  | Call f args => f +:+ "(" +:+ print_args args +:+ ");"
  end.

Fixpoint print_script (p : list js_stmt) : string :=
  match p with
  | [] => ""
  | s :: rest => print_stmt s +:+ print_script rest
  end.

(** The script the specification describes for the component [id]: set up
    a repeating, active timer of 60000 ms that is not reset and runs
    [checkSession(id)], then check the session once at once. *)
Definition monitor_script (id : Z) : list js_stmt :=
  [ Call "setupTimer"
      [ ArgInt id; ArgStr ("checkSession(" +:+ Str.itoa id +:+ ")");
        ArgInt 60000; ArgBool true; ArgBool true; ArgBool false ];
    Call "checkSession" [ ArgInt id ] ].

End SessMonitor.

(* ===================================================================== *)
(** * gwu/listbox.go: rendering the ListBox *)
(* ===================================================================== *)

Module ListBoxMarkup.
Import Go ListBox.

(** What [Render] uses and the file does not declare: the byte string
    [_STR_GT], what the writer's [WriteAttr] writes for a name and a value,
    what its [Writees] writes for a string (the escaped string), and what
    [renderAttrsAndStyle], [renderEnabled] and [renderEHandlers] write for
    the component. [Writes] and [Write] write their argument. *)
Record render_env : Type := mkRenderEnv {
  STR_GT : string;
  WriteAttr : string -> string -> string;
  Writees : string -> string;
  attrsAndStyle : string;
  enabledAttr : string;
  eHandlers : string
}.

(** The writer, as the bytes written to it so far. *)
Definition writer : Type := string.

(** [c.values[i]] for an index [i] that [SelectedIndices] lists. *)
Definition value_of (c : listBoxImpl) (i : Z) : string :=
  default EmptyString (values c !! Z.to_nat i).

Definition Writes (s : string) : M writer unit :=
  fun w => (Returned tt, w +:+ s).

(** The opening tag of an option. *)
Definition option_open (sel : bool) : string :=
  if sel then
    "<option selected=" +:+ SessMonitor.dquote +:+ "selected"
      +:+ SessMonitor.dquote +:+ ">"
  else "<option>".

(** The body of the loop of [Render], for the value at index [i]; the read
    of [c.selected[i]] is checked by the Go run time. *)
Definition render_option (E : render_env) (c : listBoxImpl)
    (iv : nat * string) : M writer unit :=
  match selected c !! fst iv with
  | Some sel => Writes (option_open sel)
  | None => raise (IndexOutOfRange (Z.of_nat (fst iv)) (length (selected c)))
  end ;;;
  Writes (Writees E (snd iv)) ;;;
  Writes "</option>".

(** The pairs [(i, value)] a [range] loop over [values] visits. *)
Fixpoint enumerate_from (i : nat) (vs : list string) : list (nat * string) :=
  match vs with
  | [] => []
  | v :: vs' => (i, v) :: enumerate_from (S i) vs'
  end.

(** [listBoxImpl.Render(w)]. *)
Definition Render (E : render_env) (c : listBoxImpl) : M writer unit :=
  Writes "<select" ;;;
  (if multi c then
     Writes (" multiple=" +:+ SessMonitor.dquote +:+ "multiple"
               +:+ SessMonitor.dquote)
   else ret tt) ;;;
  Writes (WriteAttr E "size" (Str.itoa (rows c))) ;;;
  Writes (attrsAndStyle E) ;;;
  Writes (enabledAttr E) ;;;
  Writes (eHandlers E) ;;;
  Writes (STR_GT E) ;;;
  for_each (enumerate_from 0 (values c)) (render_option E c) ;;;
  Writes "</select>".

(** Everything [Render] writes before the first option. *)
Definition select_open (E : render_env) (c : listBoxImpl) : string :=
  "<select"
    +:+ (if multi c then
           " multiple=" +:+ SessMonitor.dquote +:+ "multiple"
             +:+ SessMonitor.dquote
         else "")
    +:+ WriteAttr E "size" (Str.itoa (rows c))
    +:+ attrsAndStyle E +:+ enabledAttr E +:+ eHandlers E +:+ STR_GT E.

(** One option element. *)
Definition option_markup (E : render_env) (value : string) (sel : bool)
  : string :=
  option_open sel +:+ Writees E value +:+ "</option>".

(** The option elements of the values that have a selection flag, in
    order. *)
Fixpoint options_markup (E : render_env) (vs : list string) (sel : list bool)
  : string :=
  match vs, sel with
  | v :: vs', s :: sel' => option_markup E v s +:+ options_markup E vs' sel'
  | _, _ => ""
  end.

End ListBoxMarkup.

(* ===================================================================== *)
(** * More of the static JavaScript runtime *)
(* ===================================================================== *)

Module Page.
Import Js Client.

(** ** [selIdxs]: the selected indices of an HTML select *)

(** The loop of [selIdxs] from the option with index [i] on; [options] are
    the [selected] flags of [select.options]. The counter is a whole number
    well below 2^53, which [i + ","] turns into its decimal digits. *)
Fixpoint selIdxs_from (i : Z) (options : list bool) (selected : string)
  : string :=
  match options with
  | [] => selected
  | o :: rest =>
      selIdxs_from (i + 1) rest
        (if o then selected +:+ (Str.itoa i +:+ ",") else selected)
  end.

Definition selIdxs (options : list bool) : string :=
  selIdxs_from 0 options "".

(** ** Directives on the wire *)

(** Fields separated by [sep]; what [split] takes apart. *)
Fixpoint join (sep : ascii) (fields : list string) : string :=
  match fields with
  | [] => ""
  | [f] => f
  | f :: rest => f +:+ String sep (join sep rest)
  end.

Fixpoint contains (ch : ascii) (s : string) : bool :=
  match s with
  | EmptyString => false
  | String c rest => Ascii.eqb c ch || contains ch rest
  end.

(** ** [addonload] and [addonbeforeunload] *)

Section Handlers.

(** What a handler does to the page, for handlers that return. *)
Variable page : Type.

Definition handler : Type := page -> page.

(** [addonload(func)], on the value of [window.onload]: [None] when that is
    no function. *)
Definition addonload (func : handler) (onload : option handler)
  : option handler :=
  match onload with
  | None => Some func
  | Some oldonload => Some (fun p => func (oldonload p))
  end.

(** [addonbeforeunload(func)], on the value of [window.onbeforeunload]. *)
Definition addonbeforeunload (func : handler) (onbeforeunload : option handler)
  : option handler :=
  match onbeforeunload with
  | None => Some func
  | Some oldonbeforeunload => Some (fun p => func (oldonbeforeunload p))
  end.

(** The window runs the handler slot when the event comes. *)
Definition run_slot (slot : option handler) (p : page) : page :=
  match slot with
  | Some h => h p
  | None => p
  end.

End Handlers.

(** ** Timers: handles on record *)

(** No two entries of the [timers] object hold the same handle. *)
Definition handles_distinct (w : window) : Prop :=
  forall c c' t t',
    timers w !! c = Some (Obj t) -> timers w !! c' = Some (Obj t') ->
    timer_id t = timer_id t' -> c = c'.

End Page.

(* ===================================================================== *)
(** * Properties of the ListBox *)
(* ===================================================================== *)

Section ListBoxFacts.
Import Go ListBox.

Lemma with_selected_same (c : listBoxImpl) : with_selected (selected c) c = c.
Proof. destruct c; reflexivity. Qed.

Lemma same_shape_refl c : same_shape c c.
Proof. repeat split. Qed.

Lemma same_shape_trans c1 c2 c3 :
  same_shape c1 c2 -> same_shape c2 c3 -> same_shape c1 c3.
Proof.
  intros (Hv & Hm & Hr & Hl) (Hv' & Hm' & Hr' & Hl').
  repeat split; congruence.
Qed.

Lemma set_selected_at_shape i b c :
  same_shape c (snd (set_selected_at i b c)).
Proof.
  unfold set_selected_at, bind, get, put, raise.
  destruct ((0 <=? i) && (i <? Z.of_nat (length (selected c)))); simpl.
  - repeat split. apply length_insert.
  - apply same_shape_refl.
Qed.

(** A loop keeps whatever each run of its body keeps, also when it stops
    at a panic. *)
Lemma for_each_shape {A} (xs : list A) (body : A -> M listBoxImpl unit) :
  (forall x c, same_shape c (snd (body x c))) ->
  forall c, same_shape c (snd (for_each xs body c)).
Proof.
  intros Hbody. induction xs as [|x xs IH]; intros c; simpl.
  - apply same_shape_refl.
  - unfold bind. specialize (Hbody x c).
    destruct (body x c) as [[[]|p] c1]; simpl in *; [|exact Hbody].
    eapply same_shape_trans; [exact Hbody | apply IH].
Qed.

Lemma set_selected_at_in_range i b c :
  0 <= i < Z.of_nat (length (selected c)) ->
  set_selected_at i b c =
    (Returned tt, with_selected (<[Z.to_nat i := b]> (selected c)) c).
Proof.
  intros Hi. unfold set_selected_at, bind, get, put, raise.
  replace ((0 <=? i) && (i <? Z.of_nat (length (selected c)))) with true;
    [reflexivity|].
  symmetry. apply andb_true_iff. split; [apply Z.leb_le | apply Z.ltb_lt]; lia.
Qed.

Lemma set_selected_at_out_of_range i b c :
  ~ (0 <= i < Z.of_nat (length (selected c))) ->
  set_selected_at i b c =
    (Panicked (IndexOutOfRange i (length (selected c))), c).
Proof.
  intros Hi. unfold set_selected_at, bind, get, put, raise.
  replace ((0 <=? i) && (i <? Z.of_nat (length (selected c)))) with false;
    [reflexivity|].
  symmetry. apply andb_false_iff.
  destruct (Z.leb_spec 0 i); [right | left; reflexivity].
  apply Z.ltb_ge. lia.
Qed.

(** ** The clearing loop *)

Lemma cleared_app (pre post : list bool) k :
  (k <= length post)%nat ->
  cleared (length pre) k (pre ++ post) =
    pre ++ replicate k false ++ drop k post.
Proof.
  revert pre post. induction k as [|k IH]; intros pre post Hk; simpl.
  - rewrite drop_0. reflexivity.
  - destruct post as [|b post]; simpl in Hk; [lia|].
    rewrite insert_app_r_alt by lia.
    replace (length pre - length pre)%nat with 0%nat by lia. simpl.
    change (pre ++ false :: post) with (pre ++ [false] ++ post).
    rewrite app_assoc.
    replace (S (length pre)) with (length (pre ++ [false]))
      by (rewrite length_app; simpl; lia).
    rewrite IH by lia. rewrite <- app_assoc. reflexivity.
Qed.

Lemma cleared_all (l : list bool) :
  cleared 0 (length l) l = replicate (length l) false.
Proof.
  pose proof (cleared_app [] l (length l) (le_n _)) as H. simpl in H.
  rewrite H, drop_all, app_nil_r. reflexivity.
Qed.

Lemma clear_loop_run k : forall j c,
  (j + k <= length (selected c))%nat ->
  for_each (map Z.of_nat (seq j k)) (fun i => set_selected_at i false) c =
    (Returned tt, with_selected (cleared j k (selected c)) c).
Proof.
  induction k as [|k IH]; intros j c Hjk; simpl.
  - rewrite with_selected_same. reflexivity.
  - unfold bind. rewrite set_selected_at_in_range by lia.
    rewrite Nat2Z.id. rewrite IH by (simpl; rewrite length_insert; lia).
    reflexivity.
Qed.

Lemma ClearSelected_run c :
  ClearSelected c =
    (Returned tt, with_selected (replicate (length (selected c)) false) c).
Proof.
  unfold ClearSelected, bind, get, range_indices.
  rewrite clear_loop_run by (simpl; lia).
  rewrite cleared_all. reflexivity.
Qed.

(** ** The selecting loop *)

Lemma select_all_length indices : forall l,
  length (select_all l indices) = length l.
Proof.
  induction indices as [|i indices IH]; intros l; simpl; [reflexivity|].
  unfold select_all in *. simpl. rewrite IH. apply length_insert.
Qed.

Lemma select_loop_ok indices : forall c,
  Forall (in_range c) indices ->
  for_each indices (fun idx => set_selected_at idx true) c =
    (Returned tt, with_selected (select_all (selected c) indices) c).
Proof.
  induction indices as [|i indices IH]; intros c Hall; simpl.
  - rewrite with_selected_same. reflexivity.
  - inversion Hall as [|? ? Hi Hrest]; subst.
    unfold bind. rewrite set_selected_at_in_range by exact Hi.
    rewrite IH.
    + reflexivity.
    + eapply Forall_impl; [exact Hrest|].
      intros z Hz. unfold in_range in *. simpl.
      rewrite length_insert. exact Hz.
Qed.

Lemma select_loop_panics indices : forall c,
  ~ Forall (in_range c) indices ->
  exists i, ~ in_range c i /\ In i indices /\
    fst (for_each indices (fun idx => set_selected_at idx true) c) =
      Panicked (IndexOutOfRange i (length (selected c))).
Proof.
  induction indices as [|i indices IH]; intros c Hnot.
  - exfalso. apply Hnot. constructor.
  - simpl. unfold bind.
    destruct (Z_le_dec 0 i) as [Hlo|Hlo];
      [destruct (Z_lt_dec i (Z.of_nat (length (selected c)))) as [Hhi|Hhi]|].
    + rewrite set_selected_at_in_range by lia.
      set (c1 := with_selected _ c).
      assert (Hlen : length (selected c1) = length (selected c))
        by (subst c1; simpl; apply length_insert).
      destruct (IH c1) as (i' & Hi' & Hin & Hp).
      * intros Hall. apply Hnot. constructor; [unfold in_range; lia|].
        eapply Forall_impl; [exact Hall|].
        intros z Hz. unfold in_range in *. rewrite <- Hlen. exact Hz.
      * exists i'. unfold in_range in *. rewrite <- Hlen.
        split; [exact Hi'|]. split; [right; exact Hin | exact Hp].
    + exists i. rewrite set_selected_at_out_of_range by lia.
      unfold in_range. split; [lia|]. split; [left|]; reflexivity.
    + exists i. rewrite set_selected_at_out_of_range by lia.
      unfold in_range. split; [lia|]. split; [left|]; reflexivity.
Qed.

Lemma select_all_lookup indices : forall (l : list bool) (k : nat),
  Forall (fun i => 0 <= i < Z.of_nat (length l)) indices ->
  select_all l indices !! k = Some true <->
    l !! k = Some true \/ ((k < length l)%nat /\ In (Z.of_nat k) indices).
Proof.
  induction indices as [|i indices IH]; intros l k Hall.
  - simpl. split; [auto | intros [H|[_ []]]; exact H].
  - inversion Hall as [|? ? Hi Hrest]; subst.
    change (select_all l (i :: indices))
      with (select_all (<[Z.to_nat i := true]> l) indices).
    rewrite IH by (eapply Forall_impl; [exact Hrest|];
                   intros z Hz; simpl; rewrite length_insert; exact Hz).
    rewrite length_insert. simpl.
    destruct (Nat.eq_dec (Z.to_nat i) k) as [Heq|Hne].
    + subst k. rewrite list_lookup_insert_eq by lia.
      split; intros _.
      * right. split; [lia|]. left. lia.
      * left. reflexivity.
    + rewrite list_lookup_insert_ne by exact Hne.
      split.
      * intros [H|[Hk Hin]]; [left; exact H|].
        right. split; [exact Hk | right; exact Hin].
      * intros [H|[Hk [Heq|Hin]]]; [left; exact H | | right; auto].
        exfalso. apply Hne. subst i. apply Nat2Z.id.
Qed.

Lemma SetSelectedIndices_unfold indices c :
  SetSelectedIndices indices c =
    for_each indices (fun idx => set_selected_at idx true)
      (with_selected (replicate (length (selected c)) false) c).
Proof.
  pose proof (ClearSelected_run c) as Hclear.
  unfold ClearSelected, SetSelectedIndices, bind, get in *.
  destruct (for_each (range_indices (length (selected c))) _ c)
    as [[[]|p] c1]; inversion Hclear; subst.
  reflexivity.
Qed.

(** ** The indices read back *)

Lemma SelectedIndices_from_acc sel : forall j acc,
  SelectedIndices_from j sel acc = acc ++ SelectedIndices_from j sel [].
Proof.
  induction sel as [|s sel IH]; intros j acc; simpl.
  - rewrite app_nil_r. reflexivity.
  - destruct s.
    + rewrite (IH (S j) (acc ++ [Z.of_nat j])), (IH (S j) [Z.of_nat j]).
      rewrite <- app_assoc. reflexivity.
    + apply IH.
Qed.

Lemma SelectedIndices_from_cons s sel j :
  SelectedIndices_from j (s :: sel) [] =
    (if s then [Z.of_nat j] else []) ++ SelectedIndices_from (S j) sel [].
Proof.
  simpl. rewrite SelectedIndices_from_acc. destruct s; reflexivity.
Qed.

Lemma SelectedIndices_from_In sel : forall j i,
  In i (SelectedIndices_from j sel []) <->
    exists n, i = Z.of_nat (j + n) /\ sel !! n = Some true.
Proof.
  induction sel as [|s sel IH]; intros j i.
  - simpl. split; [intros [] | intros (n & _ & H); discriminate H].
  - rewrite SelectedIndices_from_cons, in_app_iff, IH. split.
    + intros [H|(n & -> & Hn)].
      * destruct s; simpl in H; [|contradiction].
        destruct H as [<-|[]]. exists 0%nat. split; [f_equal; lia | reflexivity].
      * exists (S n). split; [f_equal; lia | exact Hn].
    + intros ([|n] & -> & Hn).
      * simpl in Hn. inversion Hn; subst. left. left. f_equal. lia.
      * right. exists n. split; [f_equal; lia | exact Hn].
Qed.

Lemma SelectedIndices_from_sorted sel : forall j,
  StronglySorted Z.lt (SelectedIndices_from j sel []).
Proof.
  induction sel as [|s sel IH]; intros j.
  - constructor.
  - rewrite SelectedIndices_from_cons. destruct s; simpl; [|apply IH].
    constructor; [apply IH|].
    apply List.Forall_forall. intros i Hi.
    apply SelectedIndices_from_In in Hi as (n & -> & _). lia.
Qed.

End ListBoxFacts.

Section ListBoxClaims.
Import Go ListBox.

Lemma SetSelectedIndices_shape indices c :
  same_shape c (snd (SetSelectedIndices indices c)).
Proof.
  rewrite SetSelectedIndices_unfold.
  eapply same_shape_trans;
    [|apply for_each_shape; intros; apply set_selected_at_shape].
  repeat split. simpl. apply length_replicate.
Qed.

Lemma ClearSelected_shape c : same_shape c (snd (ClearSelected c)).
Proof.
  rewrite ClearSelected_run. repeat split. simpl. apply length_replicate.
Qed.

Lemma preprocessEvent_shape w value c :
  same_shape c (snd (preprocessEvent w value c)).
Proof.
  unfold preprocessEvent.
  destruct (String.length value =? 0)%nat; [apply same_shape_refl|].
  unfold bind at 1. rewrite ClearSelected_run.
  eapply same_shape_trans; [|apply for_each_shape].
  - repeat split. simpl. apply length_replicate.
  - intros piece c0. destruct (Atoi w piece);
      [apply set_selected_at_shape | apply same_shape_refl].
Qed.

(** The invariant holds on every new ListBox and survives every method
    that writes to the ListBox, whether the method returns or panics. *)
Lemma NewListBox_invariant vs : selection_invariant (NewListBox vs).
Proof. unfold selection_invariant. simpl. apply length_replicate. Qed.

Lemma same_shape_invariant c c' :
  same_shape c c' -> selection_invariant c -> selection_invariant c'.
Proof.
  intros (Hv & _ & _ & Hl) Hinv. unfold selection_invariant in *. congruence.
Qed.

Lemma mutations_keep_invariant c :
  selection_invariant c ->
  (forall m, selection_invariant (snd (SetMulti m c))) /\
  (forall r, selection_invariant (snd (SetRows r c))) /\
  (forall i b, selection_invariant (snd (SetSelected i b c))) /\
  (forall indices, selection_invariant (snd (SetSelectedIndices indices c))) /\
  selection_invariant (snd (ClearSelected c)) /\
  (forall w value, selection_invariant (snd (preprocessEvent w value c))).
Proof.
  intros Hinv. repeat split; intros;
    try exact Hinv;
    (eapply same_shape_invariant; [|exact Hinv]).
  - apply set_selected_at_shape.
  - apply SetSelectedIndices_shape.
  - apply ClearSelected_shape.
  - apply preprocessEvent_shape.
Qed.

(** C1, as amended. On a ListBox that satisfies the invariant,
    [SetSelectedIndices] leaves [len(selected) == len(values)] in place
    whatever the indices are, and changes neither the values nor the
    flags. It returns exactly when every index lies in
    [0, len(values)); an index outside that range is not ignored: the
    call panics with an index-out-of-range error on such an index. *)
Theorem C1_SetSelectedIndices_invariant
    (c : listBoxImpl) (indices : list Z) :
  selection_invariant c ->
  selection_invariant (snd (SetSelectedIndices indices c)) /\
  same_shape c (snd (SetSelectedIndices indices c)) /\
  (fst (SetSelectedIndices indices c) = Returned tt <->
     Forall (in_range c) indices) /\
  (~ Forall (in_range c) indices ->
     exists i, In i indices /\ ~ in_range c i /\
       fst (SetSelectedIndices indices c) =
         Panicked (IndexOutOfRange i (length (selected c)))).
Proof.
  intros Hinv.
  pose proof (SetSelectedIndices_shape indices c) as Hshape.
  assert (Hpanic : ~ Forall (in_range c) indices ->
     exists i, In i indices /\ ~ in_range c i /\
       fst (SetSelectedIndices indices c) =
         Panicked (IndexOutOfRange i (length (selected c)))).
  { intros Hnot. rewrite SetSelectedIndices_unfold.
    set (c0 := with_selected _ c).
    assert (Hlen : length (selected c0) = length (selected c))
      by (subst c0; simpl; apply length_replicate).
    destruct (select_loop_panics indices c0) as (i & Hi & Hin & Hp).
    - intros Hall. apply Hnot. eapply Forall_impl; [exact Hall|].
      intros z Hz. unfold in_range in *. rewrite <- Hlen. exact Hz.
    - exists i. unfold in_range in *. rewrite <- Hlen. auto. }
  split; [|split; [exact Hshape|split; [|exact Hpanic]]].
  - destruct Hshape as (Hv & _ & _ & Hl).
    unfold selection_invariant in *. congruence.
  - split.
    + intros Hret.
      assert (Hdec : Decision (Forall (in_range c) indices))
        by (apply Forall_dec; intros i; unfold in_range; apply _).
      destruct Hdec as [Hall|Hnot]; [exact Hall|].
      destruct (Hpanic Hnot) as (i & _ & _ & Hp). congruence.
    + intros Hall. rewrite SetSelectedIndices_unfold, select_loop_ok;
        [reflexivity|].
      eapply Forall_impl; [exact Hall|].
      intros z Hz. unfold in_range in *. simpl.
      rewrite length_replicate. exact Hz.
Qed.

(** The invariant holds on a new ListBox, and still after a call with the
    out-of-range index 7. *)
Lemma C1_witness :
  selection_invariant (NewListBox ["a"; "b"; "c"]) /\
  selection_invariant
    (snd (SetSelectedIndices [2; 7; 0] (NewListBox ["a"; "b"; "c"]))).
Proof.
  split; [reflexivity|].
  apply (C1_SetSelectedIndices_invariant (NewListBox ["a"; "b"; "c"]) [2; 7; 0]).
  reflexivity.
Defined.

(** C1, as stated, fails: with three values the index 3 is out of range,
    and [SetSelectedIndices [3]] panics instead of ignoring it. *)
Lemma C1_counterexample :
  ~ in_range (NewListBox ["a"; "b"; "c"]) 3 /\
  fst (SetSelectedIndices [3] (NewListBox ["a"; "b"; "c"])) =
    Panicked (IndexOutOfRange 3 3) /\
  fst (SetSelectedIndices [3] (NewListBox ["a"; "b"; "c"])) <> Returned tt.
Proof.
  split; [unfold in_range; simpl; lia|].
  split; [reflexivity | discriminate].
Qed.

(** ** [preprocessEvent] *)

Lemma bind_ClearSelected {B} (k : M listBoxImpl B) c :
  (ClearSelected ;;; k) c =
    k (with_selected (replicate (length (selected c)) false) c).
Proof. unfold bind. rewrite ClearSelected_run. reflexivity. Qed.

(** Pieces that do not parse are skipped: a non-empty value acts as
    [SetSelectedIndices] on the indices that do parse. *)
Lemma preprocessEvent_parsed w value c :
  value <> EmptyString ->
  preprocessEvent w value c = SetSelectedIndices (parsed_indices w value) c.
Proof.
  intros Hne. unfold preprocessEvent.
  destruct value as [|ch rest]; [contradiction|].
  change (String.length (String ch rest) =? 0)%nat with false. cbv iota.
  rewrite bind_ClearSelected, SetSelectedIndices_unfold.
  unfold parsed_indices.
  generalize (with_selected (replicate (length (selected c)) false) c).
  induction (Str.split "," (String ch rest)) as [|piece pieces IH];
    intros c0; simpl; [reflexivity|].
  destruct (Atoi w piece) as [idx|e]; simpl; unfold bind.
  - destruct (set_selected_at idx true c0) as [[[]|p] c1];
      [apply IH | reflexivity].
  - apply IH.
Qed.

(** C2, as amended. When no comma-separated piece of the submitted value
    parses as an integer, [preprocessEvent] does not panic. An empty value
    leaves the ListBox as it was; a non-empty one deselects every value
    (the selection is cleared before the pieces are read) and changes
    nothing else. *)
Theorem C2_preprocessEvent_unparseable
    (w : word_size) (value : string) (c : listBoxImpl) :
  Forall (fun piece => exists e, Atoi w piece = inr e)
         (Str.split ","%char value) ->
  preprocessEvent w value c =
    (Returned tt,
     if (String.length value =? 0)%nat then c
     else with_selected (replicate (length (selected c)) false) c).
Proof.
  intros Hbad. unfold preprocessEvent.
  destruct (String.length value =? 0)%nat; [reflexivity|].
  rewrite bind_ClearSelected.
  generalize (with_selected (replicate (length (selected c)) false) c).
  induction Hbad as [|piece pieces [e He] _ IH]; intros c0; simpl;
    [reflexivity|].
  rewrite He. apply IH.
Qed.

(** A value with three pieces, none an integer, on a ListBox whose first
    value is selected. *)
Lemma C2_witness :
  Forall (fun piece => exists e, Atoi W64 piece = inr e)
         (Str.split ","%char "x,,1.5") /\
  preprocessEvent W64 "x,,1.5"
      (snd (SetSelected 0 true (NewListBox ["a"; "b"; "c"]))) =
    (Returned tt, NewListBox ["a"; "b"; "c"]).
Proof.
  split.
  - repeat constructor; eexists; reflexivity.
  - apply (C2_preprocessEvent_unparseable W64 "x,,1.5"
             (snd (SetSelected 0 true (NewListBox ["a"; "b"; "c"])))).
    repeat constructor; eexists; reflexivity.
Defined.

(** C2, as stated, fails: the value "x" holds no index, yet preprocessing
    it changes the selection: the first value was selected before and
    nothing is selected afterwards. *)
Lemma C2_counterexample :
  Atoi W64 "x" = inr ErrSyntax /\
  selected (snd (SetSelected 0 true (NewListBox ["a"; "b"; "c"]))) =
    [true; false; false] /\
  preprocessEvent W64 "x"
      (snd (SetSelected 0 true (NewListBox ["a"; "b"; "c"]))) =
    (Returned tt, NewListBox ["a"; "b"; "c"]) /\
  selected (snd (preprocessEvent W64 "x"
      (snd (SetSelected 0 true (NewListBox ["a"; "b"; "c"]))))) <>
    selected (snd (SetSelected 0 true (NewListBox ["a"; "b"; "c"]))).
Proof.
  repeat split; discriminate.
Qed.

(** C6. A ListBox with values a, b, c and multi = false, whatever was
    selected before: after [preprocessEvent] on the submitted value "1",
    [SelectedValue()] is "b" and [SelectedIndices()] is [[1]]. *)
Theorem C6_preprocessEvent_scenario
    (w : word_size) (s0 s1 s2 : bool) (r : Z) :
  exists c',
    preprocessEvent w "1" (mkListBox ["a"; "b"; "c"] false [s0; s1; s2] r) =
      (Returned tt, c') /\
    Multi c' = false /\
    SelectedValue c' = Returned "b" /\
    SelectedIndices c' = [1].
Proof.
  eexists. split; [|split; [|split]].
  - destruct w; reflexivity.
  - reflexivity.
  - reflexivity.
  - reflexivity.
Qed.

(** C9. [ClearSelected] is idempotent: two calls in a row leave the
    ListBox in the state one call leaves it in. *)
Theorem C9_ClearSelected_idempotent (c : listBoxImpl) :
  (ClearSelected ;;; ClearSelected) c = ClearSelected c.
Proof.
  rewrite bind_ClearSelected, !ClearSelected_run. simpl.
  rewrite length_replicate. reflexivity.
Qed.

(** C10. Whatever [Multi()] says, [SetSelectedIndices] on indices in range
    returns, leaves the multi flag alone and replaces the selection:
    [SelectedIndices()] afterwards lists, in increasing order and once
    each, exactly the given indices. *)
Theorem C10_SetSelectedIndices_replaces
    (c : listBoxImpl) (indices : list Z) :
  Forall (in_range c) indices ->
  exists c',
    SetSelectedIndices indices c = (Returned tt, c') /\
    Multi c' = Multi c /\
    values c' = values c /\
    StronglySorted Z.lt (SelectedIndices c') /\
    (forall i, In i (SelectedIndices c') <-> In i indices).
Proof.
  intros Hall.
  assert (Hall' : Forall
    (fun i => 0 <= i < Z.of_nat (length (replicate (length (selected c)) false)))
    indices).
  { eapply Forall_impl; [exact Hall|]. intros z Hz. unfold in_range in Hz.
    rewrite length_replicate. exact Hz. }
  eexists. split.
  - rewrite SetSelectedIndices_unfold. apply select_loop_ok.
    exact Hall'.
  - split; [reflexivity|]. split; [reflexivity|]. unfold SelectedIndices. simpl.
    split; [apply SelectedIndices_from_sorted|].
    intros i. rewrite SelectedIndices_from_In. split.
    + intros (n & -> & Hn). apply select_all_lookup in Hn; [|exact Hall'].
      destruct Hn as [Hn|[_ Hin]]; [|exact Hin].
      apply lookup_replicate in Hn as [Hf _]. discriminate Hf.
    + intros Hin. pose proof Hall as Hi.
      rewrite List.Forall_forall in Hi. specialize (Hi i Hin).
      unfold in_range in Hi. exists (Z.to_nat i). split; [simpl; lia|].
      apply select_all_lookup; [exact Hall'|]. right.
      rewrite length_replicate. split; [lia|].
      rewrite Z2Nat.id by lia. exact Hin.
Qed.

(** Three in-range indices, one given twice, on a new ListBox (multi is
    false). *)
Lemma C10_witness :
  Forall (in_range (NewListBox ["a"; "b"; "c"])) [2; 0; 2] /\
  exists c',
    SetSelectedIndices [2; 0; 2] (NewListBox ["a"; "b"; "c"]) =
      (Returned tt, c') /\
    Multi c' = false /\
    values c' = ["a"; "b"; "c"] /\
    StronglySorted Z.lt (SelectedIndices c') /\
    (forall i, In i (SelectedIndices c') <-> In i [2; 0; 2]).
Proof.
  assert (H : Forall (in_range (NewListBox ["a"; "b"; "c"])) [2; 0; 2])
    by (repeat constructor; simpl; lia).
  split; [exact H|].
  exact (C10_SetSelectedIndices_replaces (NewListBox ["a"; "b"; "c"]) [2; 0; 2] H).
Defined.

(** With multi = false and two indices given, both end up selected. *)
Example SetSelectedIndices_single_select_two :
  Multi (NewListBox ["a"; "b"; "c"]) = false /\
  SelectedIndices (snd (SetSelectedIndices [2; 0] (NewListBox ["a"; "b"; "c"])))
    = [0; 2].
Proof. split; reflexivity. Qed.

End ListBoxClaims.

(* ===================================================================== *)
(** * Properties of the client runtime *)
(* ===================================================================== *)

Section TimerFacts.
Import Client.

Lemma empty_window_well_formed : well_formed empty_window.
Proof.
  split; [|split]; intros ? ? H; simpl in H;
    rewrite lookup_empty in H; discriminate H.
Qed.

Lemma fire_timeout_well_formed h w :
  well_formed w -> well_formed (fire_timeout h w).
Proof.
  intros Hwf. unfold fire_timeout.
  destruct (active w !! h) as [s|]; [|exact Hwf].
  destruct (sched_repeat s); [exact Hwf|].
  destruct Hwf as [Hown [Hact Htab]]. split; [|split]; simpl.
  - intros h' s' Hs'. simpl in Hs'.
    apply lookup_delete_Some in Hs' as [_ Hs']. eauto.
  - intros h' s' Hs'. simpl in Hs'.
    apply lookup_delete_Some in Hs' as [_ Hs']. eauto.
  - exact Htab.
Qed.

Lemma teardown_well_formed compId t w :
  timers w !! compId = Some (Obj t) ->
  well_formed w -> well_formed (fst (teardown compId t w)).
Proof.
  intros Ht [Hown [Hact Htab]]. split; [|split]; simpl.
  - intros h s Hs. simpl in Hs |- *.
    apply lookup_delete_Some in Hs as [Hne Hs].
    destruct (Hown h s Hs) as (t' & Ht' & Hid).
    exists t'. split; [|exact Hid].
    rewrite lookup_insert_ne; [exact Ht'|].
    intros Heq. rewrite <- Heq in Ht'. congruence.
  - intros h s Hs. simpl in Hs |- *. apply lookup_delete_Some in Hs as [_ Hs]. eauto.
  - intros c t' Ht'. simpl in Ht' |- *.
    destruct (decide (compId = c)) as [->|Hne].
    + rewrite lookup_insert_eq in Ht'. discriminate Ht'.
    + rewrite lookup_insert_ne in Ht' by exact Hne. eauto.
Qed.

Lemma teardown_none_left compId t w :
  timers w !! compId = Some (Obj t) ->
  table_owns_active w ->
  timers_of (fst (teardown compId t w)) compId = ∅.
Proof.
  intros Ht Hown. apply map_empty. intros h. unfold timers_of. simpl.
  apply map_lookup_filter_None. right. intros s Hs Howner. simpl in Howner.
  apply lookup_delete_Some in Hs as [Hne Hs].
  destruct (Hown h s Hs) as (t' & Ht' & Hid).
  rewrite Howner in Ht'. congruence.
Qed.

Lemma no_entry_no_timers compId w :
  (forall t, timers w !! compId <> Some (Obj t)) ->
  table_owns_active w ->
  timers_of w compId = ∅.
Proof.
  intros Hno Hown. apply map_empty. intros h. unfold timers_of.
  apply map_lookup_filter_None. right. intros s Hs Howner. simpl in Howner.
  destruct (Hown h s Hs) as (t' & Ht' & _).
  rewrite Howner in Ht'. exact (Hno t' Ht').
Qed.

Lemma install_well_formed compId js timeout repeat reset w :
  (forall t, timers w !! compId <> Some (Obj t)) ->
  well_formed w ->
  well_formed (fst (install compId js timeout repeat reset w)).
Proof.
  intros Hno [Hown [Hact Htab]]. split; [|split]; simpl.
  - intros h s Hs. simpl in Hs |- *.
    destruct (decide (next_handle w = h)) as [<-|Hne].
    + rewrite lookup_insert_eq in Hs. inversion Hs; subst; simpl.
      rewrite lookup_insert_eq. eexists. split; reflexivity.
    + rewrite lookup_insert_ne in Hs by exact Hne.
      destruct (Hown h s Hs) as (t' & Ht' & Hid).
      exists t'. split; [|exact Hid].
      rewrite lookup_insert_ne; [exact Ht'|].
      intros Heq. rewrite <- Heq in Ht'. exact (Hno t' Ht').
  - intros h s Hs. simpl in Hs |- *.
    destruct (decide (next_handle w = h)) as [<-|Hne]; [lia|].
    rewrite lookup_insert_ne in Hs by exact Hne.
    specialize (Hact h s Hs). lia.
  - intros c t' Ht'. simpl in Ht' |- *.
    destruct (decide (compId = c)) as [->|Hne].
    + rewrite lookup_insert_eq in Ht'. inversion Ht'; subst; simpl. lia.
    + rewrite lookup_insert_ne in Ht' by exact Hne.
      specialize (Htab c t' Ht'). lia.
Qed.

Lemma setupTimer_absent compId js timeout repeat act reset w :
  (forall t, timers w !! compId <> Some (Obj t)) ->
  setupTimer compId js timeout repeat act reset w =
    if act then install compId js timeout repeat reset w else (w, []).
Proof.
  intros Hno. unfold setupTimer.
  destruct (timers w !! compId) as [[|t]|] eqn:Ht;
    [| exfalso; exact (Hno t eq_refl) |]; destruct act; reflexivity.
Qed.

Lemma setupTimer_present compId js timeout repeat act reset w t :
  timers w !! compId = Some (Obj t) ->
  setupTimer compId js timeout repeat act reset w =
    if changed t js timeout repeat reset then
      if act then
        (fst (install compId js timeout repeat reset
                (fst (teardown compId t w))),
         [clear_call t; set_call js timeout repeat (next_handle w)])
      else (fst (teardown compId t w), [clear_call t])
    else
      if act then (w, [])
      else (fst (teardown compId t w), [clear_call t]).
Proof.
  intros Ht. unfold setupTimer. rewrite Ht.
  destruct (changed t js timeout repeat reset), act; reflexivity.
Qed.

Lemma teardown_clears_entry compId t w t' :
  timers (fst (teardown compId t w)) !! compId <> Some (Obj t').
Proof. simpl. rewrite lookup_insert_eq. discriminate. Qed.

Lemma setupTimer_well_formed compId js timeout repeat act reset w :
  well_formed w ->
  well_formed (fst (setupTimer compId js timeout repeat act reset w)).
Proof.
  intros Hwf.
  destruct (timers w !! compId) as [[|t]|] eqn:Ht.
  - rewrite setupTimer_absent by congruence.
    destruct act; [|exact Hwf].
    apply install_well_formed; [congruence | exact Hwf].
  - rewrite (setupTimer_present _ _ _ _ _ _ _ t Ht).
    pose proof (teardown_well_formed compId t w Ht Hwf) as Hwf1.
    destruct (changed t js timeout repeat reset), act;
      cbv beta iota delta [fst]; try assumption.
    apply install_well_formed; [|exact Hwf1].
    intros t'. apply teardown_clears_entry.
  - rewrite setupTimer_absent by congruence.
    destruct act; [|exact Hwf].
    apply install_well_formed; [congruence | exact Hwf].
Qed.

(** In a well-formed window a component has at most one active timer. *)
Lemma at_most_one_timer w compId :
  table_owns_active w -> (size (timers_of w compId) <= 1)%nat.
Proof.
  intros Hown.
  destruct (map_choose_or_empty (timers_of w compId))
    as [(h & s & Hhs)| ->]; [|rewrite map_size_empty; lia].
  assert (Hsingle : timers_of w compId = {[h := s]}).
  { apply map_eq. intros h'.
    destruct (decide (h = h')) as [<-|Hne].
    - rewrite lookup_singleton_eq. exact Hhs.
    - rewrite lookup_singleton_ne by exact Hne.
      destruct (timers_of w compId !! h') as [s'|] eqn:Hs'; [|reflexivity].
      exfalso. apply Hne.
      apply map_lookup_filter_Some in Hhs as [Hs Ho].
      apply map_lookup_filter_Some in Hs' as [Hs'' Ho']. simpl in Ho, Ho'.
      destruct (Hown h s Hs) as (t & Ht & Hid).
      destruct (Hown h' s' Hs'') as (t' & Ht' & Hid').
      rewrite Ho in Ht. rewrite Ho' in Ht'. congruence. }
  rewrite Hsingle, map_size_singleton. lia.
Qed.

End TimerFacts.

Section TimerClaims.
Import Client.

Lemma changed_false_iff t js timeout repeat reset :
  changed t js timeout repeat reset = false <->
  same_params t js timeout repeat reset.
Proof.
  unfold changed, same_params.
  rewrite !orb_false_iff, !negb_false_iff.
  rewrite String.eqb_eq, Z.eqb_eq, !Bool.eqb_true_iff. tauto.
Qed.

Lemma changed_true_iff t js timeout repeat reset :
  changed t js timeout repeat reset = true <->
  ~ same_params t js timeout repeat reset.
Proof.
  rewrite <- changed_false_iff.
  destruct (changed t js timeout repeat reset); split; congruence.
Qed.

(** C7. [setupTimer] on a well-formed window.
    - A timer exists for the id and the parameters differ, with active
      true: the old timer is cleared first and then the new one is
      started; the table holds the new one and the old one is no longer
      active.
    - active false: no timer is started, none remains active for the id,
      and an existing one is cleared and its entry set to null.
    - A timer exists with the same parameters, with active true: nothing
      is called and the window is unchanged.
    Afterwards the window is well formed again, and every component id
    has at most one active timer. *)
Theorem C7_setupTimer_clear_and_replace
    (compId : Z) (js : string) (timeout : Z) (repeat act reset : bool)
    (w : window) :
  well_formed w ->
  let r := setupTimer compId js timeout repeat act reset w in
  (forall t, timers w !! compId = Some (Obj t) ->
     ~ same_params t js timeout repeat reset -> act = true ->
     snd r = [clear_call t; set_call js timeout repeat (next_handle w)] /\
     timers (fst r) !! compId =
       Some (Obj (mkTimer js timeout repeat reset (next_handle w))) /\
     active (fst r) !! timer_id t = None /\
     active (fst r) !! next_handle w =
       Some (mkScheduled js timeout repeat compId)) /\
  (act = false ->
     (forall c, In c (snd r) -> is_set_call c = false) /\
     timers_of (fst r) compId = ∅ /\
     (forall t, timers w !! compId = Some (Obj t) ->
        snd r = [clear_call t] /\
        timers (fst r) !! compId = Some Null /\
        active (fst r) !! timer_id t = None)) /\
  (forall t, timers w !! compId = Some (Obj t) ->
     same_params t js timeout repeat reset -> act = true ->
     r = (w, [])) /\
  well_formed (fst r) /\
  (forall c, (size (timers_of (fst r) c) <= 1)%nat).
Proof.
  intros Hwf r.
  assert (Hwf' : well_formed (fst r)) by (apply setupTimer_well_formed, Hwf).
  split; [|split; [|split; [|split]]].
  - intros t Ht Hdiff ->. subst r.
    apply changed_true_iff in Hdiff.
    rewrite (setupTimer_present _ _ _ _ _ _ _ t Ht), Hdiff. simpl.
    destruct Hwf as [_ [_ Htab]]. specialize (Htab compId t Ht).
    split; [reflexivity|]. split; [apply lookup_insert_eq|]. split.
    + rewrite lookup_insert_ne by lia. apply lookup_delete_eq.
    + apply lookup_insert_eq.
  - intros ->. subst r.
    destruct (timers w !! compId) as [[|t]|] eqn:Ht.
    + rewrite setupTimer_absent by congruence. simpl.
      split; [intros c []|]. split.
      * apply no_entry_no_timers; [congruence | apply Hwf].
      * intros t Habs. discriminate Habs.
    + rewrite (setupTimer_present _ _ _ _ _ _ _ t Ht).
      assert (Hres : (if changed t js timeout repeat reset
                      then (fst (teardown compId t w), [clear_call t])
                      else (fst (teardown compId t w), [clear_call t])) =
                     (fst (teardown compId t w), [clear_call t]))
        by (destruct (changed t js timeout repeat reset); reflexivity).
      rewrite Hres. cbv beta iota delta [fst snd].
      split; [intros c [<-|[]]; unfold clear_call;
              destruct (timer_repeat t); reflexivity|].
      split; [apply (teardown_none_left compId t w Ht), Hwf|].
      intros t' Ht'. inversion Ht'; subst t'.
      split; [reflexivity|]. simpl.
      split; [apply lookup_insert_eq | apply lookup_delete_eq].
    + rewrite setupTimer_absent by congruence. simpl.
      split; [intros c []|]. split.
      * apply no_entry_no_timers; [congruence | apply Hwf].
      * intros t Habs. discriminate Habs.
  - intros t Ht Hsame ->. subst r.
    apply changed_false_iff in Hsame.
    rewrite (setupTimer_present _ _ _ _ _ _ _ t Ht), Hsame. reflexivity.
  - exact Hwf'.
  - intros c. apply at_most_one_timer, Hwf'.
Qed.

(** A window with a 60000 ms timer for component 7, set up again with
    30000 ms: the old interval is cleared, then the new one is started. *)
Lemma C7_witness :
  well_formed
    (fst (setupTimer 7 "checkSession(7)" 60000 true true false empty_window)) /\
  snd (setupTimer 7 "checkSession(7)" 30000 true true false
         (fst (setupTimer 7 "checkSession(7)" 60000 true true false
                 empty_window))) =
    [ClearInterval 1; SetInterval "checkSession(7)" 30000 2].
Proof.
  assert (H : well_formed
    (fst (setupTimer 7 "checkSession(7)" 60000 true true false empty_window)))
    by (apply setupTimer_well_formed, empty_window_well_formed).
  split; [exact H|].
  refine (proj1 (proj1
    (C7_setupTimer_clear_and_replace 7 "checkSession(7)" 30000 true true false
       (fst (setupTimer 7 "checkSession(7)" 60000 true true false empty_window))
       H)
    (mkTimer "checkSession(7)" 60000 true false 1) _ _ _)).
  - reflexivity.
  - intros (_ & Hcontra & _). discriminate Hcontra.
  - reflexivity.
Defined.

End TimerClaims.

Section NumberFacts.
Import Js.

(** The built-ins on values whose results are known. *)
Example Math_round_values :
  map Math_round [2.5%float; (-2.5)%float; 1.5%float; 0.25%float; 1e21%float]
    = [3%float; (-2)%float; 2%float; 0%float; 1e21%float].
Proof. reflexivity. Qed.

Example NumberToString_values :
  map NumberToString
      [2%float; 60000%float; 0.5%float; (-1.25)%float; 1e21%float;
       PrimFloat.div 1 3; PrimFloat.div 1 1073741824;
       PrimFloat.nan; PrimFloat.infinity]
    = ["2"; "60000"; "0.5"; "-1.25"; "1e+21";
       "0.3333333333333333"; "9.313225746154785e-10"; "NaN"; "Infinity"].
Proof. vm_compute. reflexivity. Qed.

Example parseFloat_values :
  map parseFloat ["125.0"; " 45"; "-1.0"; "1e3x"; ".5"; ""; "abc"]
    = [125%float; 45%float; (-1)%float; 1000%float; 0.5%float; NaN; NaN].
Proof. reflexivity. Qed.

Example parseInt_values :
  map parseInt ["2,3"; " 12px"; "-7"; "0x1f"; ""; "x"]
    = [2%float; 12%float; (-7)%float; 31%float; NaN; NaN].
Proof. reflexivity. Qed.

(** NaN compares unequal to every Number, itself included. *)
Lemma eqb_NaN_l (y : Number) : PrimFloat.eqb NaN y = false.
Proof. rewrite FloatAxioms.eqb_spec. reflexivity. Qed.

(** NaN plus any Number is NaN. *)
Lemma add_NaN_l (y : Number) : PrimFloat.add NaN y = NaN.
Proof.
  rewrite <- (SF2Prim_Prim2SF (PrimFloat.add NaN y)), add_spec.
  reflexivity.
Qed.

(** A Number that is not below 0 but below 60 is at least 0 (it is not
    NaN). *)
Lemma not_negative_below_60 (t : Number) :
  PrimFloat.ltb t 0%float = false ->
  PrimFloat.ltb t 60%float = true ->
  PrimFloat.leb 0%float t = true.
Proof.
  rewrite !ltb_spec, leb_spec.
  change (Prim2SF 0%float) with (S754_zero false).
  destruct (Prim2SF t) as [s|s| |s m e]; try destruct s;
    cbn; intros H0 H60; congruence.
Qed.

Lemma negative_not_at_least_0 (t : Number) :
  PrimFloat.leb 0%float t = true -> PrimFloat.ltb t 0%float = false.
Proof.
  rewrite ltb_spec, leb_spec.
  change (Prim2SF 0%float) with (S754_zero false).
  destruct (Prim2SF t) as [s|s| |s m e]; try destruct s;
    cbn; intros H0; congruence.
Qed.

End NumberFacts.

Section RuntimeClaims.
Import Js Client.

Lemma split_not_nil sep s : Str.split sep s <> [].
Proof.
  destruct s as [|c rest]; simpl; [discriminate|].
  destruct (Ascii.eqb c sep); [discriminate|].
  destruct (Str.split sep rest); discriminate.
Qed.

(** The test [actions.length == 0] of [procEresp] never holds: every
    response, the empty one included, goes through the loop. *)
Remark procEresp_always_loops
    (noAction reloadWin dirtyComps focusComp : Number) (pathApp : string)
    (responseText : string) :
  procEresp noAction reloadWin dirtyComps focusComp pathApp responseText =
    concat (map (procAction noAction reloadWin dirtyComps focusComp pathApp)
                (Str.split ";"%char responseText)).
Proof.
  unfold procEresp.
  pose proof (split_not_nil ";"%char responseText) as Hne.
  destruct (Str.split ";"%char responseText); [contradiction | reflexivity].
Qed.

(** C3. On an empty response body [procEresp] shows the user an alert,
    whatever the directive codes are: the body splits into the single
    action "", whose code reads as NaN and matches no case, so the default
    case alerts "Unknown response code:". *)
Theorem C3_empty_response_alerts
    (noAction reloadWin dirtyComps focusComp : Number) (pathApp : string) :
  procEresp noAction reloadWin dirtyComps focusComp pathApp "" =
    [Alert "Unknown response code:"].
Proof.
  unfold procEresp, procAction. simpl.
  change (parseInt "") with NaN.
  rewrite !eqb_NaN_l. reflexivity.
Qed.

(** ** The modifier keys in [se] *)

Lemma add_NaN_value (a v : value) : ToNumber a = NaN -> add a v = Num NaN.
Proof. intros Ha. unfold add. rewrite Ha, add_NaN_l. reflexivity. Qed.

(** C4 (what the code does). [modKeys] is declared without a value, so the
    first [+=] adds a number to [undefined] and gives NaN, and NaN it
    stays: for every event and whatever the bit values are, the field sent
    is "NaN"; with no modifier pressed it is not "0". Besides, the event
    property read for Ctrl, [ctlrKey], does not exist on a DOM event. *)
Theorem C4_modKeys_field_is_NaN
    (pModKeys : string) (modKeyAlt modKeyCtlr modKeyMeta modKeyShift : Number)
    (event : DomEvent) :
  se_modKeys modKeyAlt modKeyCtlr modKeyMeta modKeyShift event = Num NaN /\
  se_modKeys_field pModKeys modKeyAlt modKeyCtlr modKeyMeta modKeyShift event =
    "&" +:+ pModKeys +:+ "=" +:+ "NaN" /\
  ToString (se_modKeys modKeyAlt modKeyCtlr modKeyMeta modKeyShift
              (mkEvent false false false false)) <> "0" /\
  prop event "ctlrKey" = Undefined.
Proof.
  assert (H : forall ev,
    se_modKeys modKeyAlt modKeyCtlr modKeyMeta modKeyShift ev = Num NaN).
  { intros ev. unfold se_modKeys.
    rewrite (add_NaN_value Undefined) by reflexivity.
    rewrite !(add_NaN_value (Num NaN)) by reflexivity. reflexivity. }
  split; [apply H|]. split; [|split].
  - unfold se_modKeys_field. rewrite H. reflexivity.
  - rewrite H. discriminate.
  - reflexivity.
Qed.

(** ** The session monitor's label *)

Lemma has_class_add token cl :
  existsb (String.eqb token) (classList_add token cl) = true.
Proof.
  unfold classList_add.
  destruct (existsb (String.eqb token) cl) eqn:H; [exact H|].
  rewrite existsb_app. simpl. rewrite String.eqb_refl.
  rewrite orb_true_r. reflexivity.
Qed.

Lemma has_class_remove token cl :
  existsb (String.eqb token) (classList_remove token cl) = false.
Proof.
  unfold classList_remove. induction cl as [|t cl IH]; simpl; [reflexivity|].
  destruct (String.eqb t token) eqn:Ht; simpl; [exact IH|].
  rewrite String.eqb_sym, Ht. exact IH.
Qed.

(** C5. What [checkSession] does with the answer [timeoutSec] of a poll:
    - below 0: the element gets the class gwu-SessMonitor-Expired and the
      label "Expired!";
    - at least 0 and below 60: the class is removed, the label is
      "<1 min";
    - otherwise: the class is removed, the label is "~", then
      [Math.round(timeoutSec / 60)] as a string, then " min".
    A completed request (readyState 4, status 200) applies this to the
    parsed response text; the answer 125 (response text "125.0") gives the
    label "~2 min". *)
Theorem C5_checkSession_label (timeoutSec : Number) (e : element) :
  (PrimFloat.ltb timeoutSec 0%float = true ->
     has_class "gwu-SessMonitor-Expired" (show_timeout timeoutSec e) = true /\
     child0_innerText (show_timeout timeoutSec e) = "Expired!") /\
  (PrimFloat.leb 0%float timeoutSec = true ->
   PrimFloat.ltb timeoutSec 60%float = true ->
     has_class "gwu-SessMonitor-Expired" (show_timeout timeoutSec e) = false /\
     child0_innerText (show_timeout timeoutSec e) = "<1 min") /\
  (PrimFloat.ltb timeoutSec 0%float = false ->
   PrimFloat.leb 0%float timeoutSec && PrimFloat.ltb timeoutSec 60%float = false ->
     has_class "gwu-SessMonitor-Expired" (show_timeout timeoutSec e) = false /\
     child0_innerText (show_timeout timeoutSec e) =
       "~" +:+ NumberToString (Math_round (PrimFloat.div timeoutSec 60%float))
           +:+ " min") /\
  (forall body,
     checkSession (Some e) (mkXhr 4 200 body) =
       Some (show_timeout (parseFloat body) e)) /\
  child0_innerText (show_timeout 125%float e) = "~2 min" /\
  (forall e', checkSession (Some e) (mkXhr 4 200 "125.0") = Some e' ->
     has_class "gwu-SessMonitor-Expired" e' = false /\
     child0_innerText e' = "~2 min").
Proof.
  split; [|split; [|split; [|split; [|split]]]].
  - intros Hneg. unfold show_timeout, has_class. rewrite Hneg.
    split; [apply has_class_add | reflexivity].
  - intros H0 H60. apply negative_not_at_least_0 in H0.
    unfold show_timeout, has_class. rewrite H0, H60.
    split; [apply has_class_remove | reflexivity].
  - intros H0 Hnot.
    assert (H60 : PrimFloat.ltb timeoutSec 60%float = false).
    { destruct (PrimFloat.ltb timeoutSec 60%float) eqn:H60; [|reflexivity].
      rewrite (not_negative_below_60 timeoutSec H0 H60) in Hnot.
      discriminate Hnot. }
    unfold show_timeout, has_class. rewrite H0, H60.
    split; [apply has_class_remove | reflexivity].
  - intros body. reflexivity.
  - reflexivity.
  - intros e' He'. inversion He'; subst e'.
    split; [apply has_class_remove | reflexivity].
Qed.

End RuntimeClaims.

Section RenderClaims.
Import SessMonitor.

Lemma append_assoc (a b c : string) : (a +:+ b) +:+ c = a +:+ (b +:+ c).
Proof.
  induction a as [|ch a IH]; [reflexivity|].
  exact (f_equal (String ch) IH).
Qed.

(** What [Render] writes, whatever the constants are: the pieces in the
    order of the calls. *)
Lemma Render_writes (E : env) (id : Z) (w : Writer) :
  Render E id w =
    w +:+ strSpanOp E +:+ renderAttrsAndStyle E +:+ renderEHandlers E
      +:+ strGT E +:+ strEmptySpan
      +:+ strScriptOp E +:+ Writev_int E id +:+ strComma E
      +:+ strQuote E +:+ strJsCheckSessOp +:+ Writev_int E id
      +:+ strJsParamCl E +:+ strComma E
      +:+ Writev_int E 60000 +:+ strComma E
      +:+ Writev_bool E true +:+ strComma E
      +:+ Writev_bool E true +:+ strComma E
      +:+ Writev_bool E false +:+ strParenCl E +:+ strSemicol E
      +:+ strJsCheckSessOp +:+ Writev_int E id +:+ strScriptCl E
      +:+ strSpanCl E.
Proof. unfold Render, Write. rewrite !append_assoc. reflexivity. Qed.

(** C8. [Render] of a SessMonitor with id [id] writes a span that holds
    the placeholder span and an inline script, and the script is the
    program: setupTimer(id, "checkSession(id)", 60000, true, true, false);
    checkSession(id); that is, a timer of 60000 ms, repeat true, active
    true, reset false, running [checkSession] on the component's id, and
    one session check at once. Run on a window that has no timer for
    [id], that [setupTimer] call starts one repeating timer (setInterval)
    of 60000 ms for it. *)
Theorem C8_Render_installs_polling_timer
    (attrs ehandlers : string) (id : Z) (w : Writer) :
  Render (gowut_env attrs ehandlers) id w =
    w +:+ "<span" +:+ attrs +:+ ehandlers +:+ ">"
      +:+ "<span></span>"
      +:+ "<script>" +:+ print_script (monitor_script id) +:+ "</script>"
      +:+ "</span>" /\
  monitor_script id =
    [ Call "setupTimer"
        [ ArgInt id; ArgStr ("checkSession(" +:+ Str.itoa id +:+ ")");
          ArgInt (60 * 1000); ArgBool true; ArgBool true; ArgBool false ];
      Call "checkSession" [ ArgInt id ] ] /\
  (forall win : Client.window,
     (forall t, Client.timers win !! id <> Some (Client.Obj t)) ->
     snd (Client.setupTimer id ("checkSession(" +:+ Str.itoa id +:+ ")")
            60000 true true false win) =
       [Client.SetInterval ("checkSession(" +:+ Str.itoa id +:+ ")") 60000
          (Client.next_handle win)]).
Proof.
  split; [|split; [reflexivity|]];
    [|intros win Hno; rewrite setupTimer_absent by exact Hno; reflexivity].
  rewrite Render_writes.
  unfold gowut_env, monitor_script, print_script, print_stmt, print_args,
    print_arg, strEmptySpan, strJsCheckSessOp, dquote; cbn.
  rewrite !append_assoc. cbn. reflexivity.
Qed.

(** The whole output for the component with id 7, no attributes and no
    handlers. *)
Example Render_of_7 :
  Render (gowut_env "" "") 7 "" =
    "<span><span></span><script>setupTimer(7," +:+ dquote
      +:+ "checkSession(7)" +:+ dquote
      +:+ ",60000,true,true,false);checkSession(7);</script></span>".
Proof. reflexivity. Qed.

End RenderClaims.

(* ===================================================================== *)
(** * More about the ListBox *)
(* ===================================================================== *)

Section ListBoxReads.
Import Go ListBox.

Lemma in_range_dec c i : {in_range c i} + {~ in_range c i}.
Proof.
  unfold in_range.
  destruct (Z_le_dec 0 i); [|right; lia].
  destruct (Z_lt_dec i (Z.of_nat (length (selected c)))); [left|right]; lia.
Qed.

Lemma selected_at_in_range i c :
  in_range c i ->
  exists b, selected c !! Z.to_nat i = Some b /\
            selected_at i c = (Returned b, c).
Proof.
  intros Hi. unfold in_range in Hi.
  destruct (lookup_lt_is_Some_2 (selected c) (Z.to_nat i)) as [b Hb]; [lia|].
  exists b. split; [exact Hb|].
  unfold selected_at, bind, get, ret.
  replace ((0 <=? i) && (i <? Z.of_nat (length (selected c)))) with true.
  - rewrite Hb. reflexivity.
  - symmetry. apply andb_true_iff.
    split; [apply Z.leb_le | apply Z.ltb_lt]; lia.
Qed.

Lemma selected_at_out_of_range i c :
  ~ in_range c i ->
  selected_at i c = (Panicked (IndexOutOfRange i (length (selected c))), c).
Proof.
  intros Hi. unfold in_range in Hi. unfold selected_at, bind, get, raise.
  replace ((0 <=? i) && (i <? Z.of_nat (length (selected c)))) with false;
    [reflexivity|].
  symmetry. apply andb_false_iff.
  destruct (Z.leb_spec 0 i); [right | left; reflexivity].
  apply Z.ltb_ge. lia.
Qed.

(** X1. Reading back what was set: after [SetSelected(i, b)] on an index in
    range, [Selected(i)] returns [b], and [Selected(j)] for every other
    index answers as before. *)
Theorem X1_Selected_after_SetSelected
    (c : listBoxImpl) (i : Z) (b : bool) :
  in_range c i ->
  exists c',
    SetSelected i b c = (Returned tt, c') /\
    Selected i c' = (Returned b, c') /\
    (forall j, j <> i -> fst (Selected j c') = fst (Selected j c)) /\
    same_shape c c'.
Proof.
  intros Hi. eexists. split; [apply set_selected_at_in_range, Hi|].
  set (c' := with_selected _ c).
  assert (Hlen : length (selected c') = length (selected c))
    by (subst c'; simpl; apply length_insert).
  assert (Hi' : in_range c' i) by (unfold in_range in *; rewrite Hlen; exact Hi).
  split; [|split].
  - destruct (selected_at_in_range i c' Hi') as (b' & Hb' & Hsel).
    unfold Selected. rewrite Hsel. subst c'. simpl in Hb'.
    unfold in_range in Hi.
    rewrite list_lookup_insert_eq in Hb' by lia. congruence.
  - intros j Hj. unfold Selected.
    destruct (in_range_dec c j) as [Hin|Hout].
    + assert (Hin' : in_range c' j)
        by (unfold in_range in *; rewrite Hlen; exact Hin).
      destruct (selected_at_in_range j c Hin) as (b1 & Hb1 & ->).
      destruct (selected_at_in_range j c' Hin') as (b2 & Hb2 & ->).
      subst c'. simpl in Hb2. unfold in_range in Hin, Hi.
      rewrite list_lookup_insert_ne in Hb2 by lia. simpl. congruence.
    + assert (Hout' : ~ in_range c' j)
        by (unfold in_range in *; rewrite Hlen; exact Hout).
      rewrite (selected_at_out_of_range j c Hout),
              (selected_at_out_of_range j c' Hout').
      rewrite Hlen. reflexivity.
  - subst c'. repeat split. simpl. apply length_insert.
Qed.

(** An index in range of a new three-value ListBox. *)
Lemma X1_witness :
  in_range (NewListBox ["a"; "b"; "c"]) 2 /\
  exists c',
    SetSelected 2 true (NewListBox ["a"; "b"; "c"]) = (Returned tt, c') /\
    Selected 2 c' = (Returned true, c') /\
    (forall j, j <> 2 ->
       fst (Selected j c') = fst (Selected j (NewListBox ["a"; "b"; "c"]))) /\
    same_shape (NewListBox ["a"; "b"; "c"]) c'.
Proof.
  assert (H : in_range (NewListBox ["a"; "b"; "c"]) 2)
    by (unfold in_range; simpl; lia).
  split; [exact H|].
  exact (X1_Selected_after_SetSelected (NewListBox ["a"; "b"; "c"]) 2 true H).
Defined.


(** ** The selected values *)

Lemma SelectedValues_from_spec vs sel : forall i sv,
  (i + length sel <= length vs)%nat ->
  SelectedValues_from vs i sel sv =
    Returned (sv ++ map (fun z => default EmptyString (vs !! Z.to_nat z))
                        (SelectedIndices_from i sel [])).
Proof.
  induction sel as [|s sel IH]; intros i sv Hlen; simpl.
  - rewrite app_nil_r. reflexivity.
  - simpl in Hlen. destruct s.
    + unfold value_at.
      destruct (lookup_lt_is_Some_2 vs i) as [v Hv]; [lia|].
      rewrite Hv, IH by lia.
      rewrite (SelectedIndices_from_acc sel (S i) [Z.of_nat i]).
      simpl. rewrite Nat2Z.id, Hv. simpl.
      rewrite <- app_assoc. reflexivity.
    + apply IH. lia.
Qed.

Lemma SelectedValue_from_spec vs sel : forall i,
  (i + length sel <= length vs)%nat ->
  SelectedValue_from vs i sel =
    Returned (hd EmptyString
                (map (fun z => default EmptyString (vs !! Z.to_nat z))
                     (SelectedIndices_from i sel []))).
Proof.
  induction sel as [|s sel IH]; intros i Hlen; simpl; [reflexivity|].
  simpl in Hlen. destruct s.
  - unfold value_at.
    destruct (lookup_lt_is_Some_2 vs i) as [v Hv]; [lia|].
    rewrite Hv, (SelectedIndices_from_acc sel (S i) [Z.of_nat i]).
    simpl. rewrite Nat2Z.id, Hv. reflexivity.
  - apply IH. lia.
Qed.


(** X3. On a ListBox that satisfies the invariant the reads do not panic:
    [SelectedValues()] is the list of the values at the indices
    [SelectedIndices()] lists, in that order, and [SelectedValue()] is the
    first of them, or the empty string when nothing is selected. *)
Theorem X3_selected_values (c : listBoxImpl) :
  selection_invariant c ->
  SelectedValues c =
    Returned (map (ListBoxMarkup.value_of c) (SelectedIndices c)) /\
  SelectedValue c =
    Returned (hd EmptyString
                (map (ListBoxMarkup.value_of c) (SelectedIndices c))) /\
  length (SelectedIndices c) = length (List.filter id (selected c)).
Proof.
  intros Hinv. unfold selection_invariant in Hinv.
  unfold SelectedValues, SelectedValue, SelectedIndices.
  rewrite SelectedValues_from_spec, SelectedValue_from_spec by (simpl; lia).
  split; [reflexivity|]. split; [reflexivity|].
  clear Hinv. generalize 0%nat.
  induction (selected c) as [|s sel IH]; intros j; [reflexivity|].
  rewrite SelectedIndices_from_cons, length_app, IH.
  destruct s; reflexivity.
Qed.

(** Two of three values selected. *)
Lemma X3_witness :
  selection_invariant
    (snd (SetSelectedIndices [2; 1] (NewListBox ["a"; "b"; "c"]))) /\
  SelectedValues (snd (SetSelectedIndices [2; 1] (NewListBox ["a"; "b"; "c"])))
    = Returned ["b"; "c"].
Proof.
  assert (H : selection_invariant
    (snd (SetSelectedIndices [2; 1] (NewListBox ["a"; "b"; "c"]))))
    by reflexivity.
  split; [exact H|].
  exact (proj1 (X3_selected_values _ H)).
Defined.

Lemma SelectedIndices_from_none n : forall j,
  SelectedIndices_from j (replicate n false) [] = [].
Proof. induction n as [|n IH]; intros j; simpl; [reflexivity | apply IH]. Qed.

Lemma SelectedValue_from_none vs n : forall j,
  SelectedValue_from vs j (replicate n false) = Returned EmptyString.
Proof. induction n as [|n IH]; intros j; simpl; [reflexivity | apply IH]. Qed.

Lemma SelectedValues_from_none vs n : forall j sv,
  SelectedValues_from vs j (replicate n false) sv = Returned sv.
Proof. induction n as [|n IH]; intros j sv; simpl; [reflexivity | apply IH]. Qed.

(** X4. Nothing is selected in a new ListBox, nor after [ClearSelected()]
    on any ListBox (the invariant is not needed): [SelectedIndices()] and
    [SelectedValues()] are empty and [SelectedValue()] is the empty
    string; a new ListBox is single-select with one row. *)
Theorem X4_nothing_selected (vs : list string) (c : listBoxImpl) :
  (SelectedIndices (NewListBox vs) = [] /\
   SelectedValues (NewListBox vs) = Returned [] /\
   SelectedValue (NewListBox vs) = Returned EmptyString /\
   Multi (NewListBox vs) = false /\ Rows (NewListBox vs) = 1) /\
  (fst (ClearSelected c) = Returned tt /\
   SelectedIndices (snd (ClearSelected c)) = [] /\
   SelectedValues (snd (ClearSelected c)) = Returned [] /\
   SelectedValue (snd (ClearSelected c)) = Returned EmptyString).
Proof.
  split.
  - unfold SelectedIndices, SelectedValues, SelectedValue. simpl.
    rewrite SelectedIndices_from_none, SelectedValues_from_none,
      SelectedValue_from_none. repeat split.
  - rewrite ClearSelected_run.
    unfold SelectedIndices, SelectedValues, SelectedValue. simpl.
    rewrite SelectedIndices_from_none, SelectedValues_from_none,
      SelectedValue_from_none. repeat split.
Qed.

(** ** How calls of [SetSelectedIndices] compose *)

(** Two vectors of flags of one length with [true] at the same places. *)
Lemma flags_eq (l1 l2 : list bool) :
  length l1 = length l2 ->
  (forall k : nat, l1 !! k = Some true <-> l2 !! k = Some true) ->
  l1 = l2.
Proof.
  intros Hlen Htrue. apply list_eq. intros k.
  destruct (l1 !! k) as [b1|] eqn:H1, (l2 !! k) as [b2|] eqn:H2.
  - destruct b1, b2; try reflexivity.
    + apply Htrue in H1. congruence.
    + apply Htrue in H2. congruence.
  - apply lookup_lt_Some in H1. apply lookup_ge_None in H2. lia.
  - apply lookup_ge_None in H1. apply lookup_lt_Some in H2. lia.
  - reflexivity.
Qed.

Lemma SetSelectedIndices_in_range indices c :
  Forall (in_range c) indices ->
  SetSelectedIndices indices c =
    (Returned tt,
     with_selected
       (select_all (replicate (length (selected c)) false) indices) c).
Proof.
  intros Hall. rewrite SetSelectedIndices_unfold, select_loop_ok; [reflexivity|].
  eapply Forall_impl; [exact Hall|].
  intros z Hz. unfold in_range in *. simpl.
  rewrite length_replicate. exact Hz.
Qed.

(** X5. The last call wins: [SetSelectedIndices(a)] followed by
    [SetSelectedIndices(b)] leaves the ListBox as [SetSelectedIndices(b)]
    alone does, when the first call returns (its indices are in range). *)
Theorem X5_SetSelectedIndices_last_wins
    (c : listBoxImpl) (a b : list Z) :
  Forall (in_range c) a ->
  (SetSelectedIndices a ;;; SetSelectedIndices b) c = SetSelectedIndices b c.
Proof.
  intros Ha. unfold bind at 1. rewrite (SetSelectedIndices_in_range a c Ha).
  rewrite !SetSelectedIndices_unfold. simpl.
  rewrite select_all_length, length_replicate. reflexivity.
Qed.

(** A selection of two values replaced by a selection of one; the second
    call may even panic. *)
Lemma X5_witness :
  Forall (in_range (NewListBox ["a"; "b"; "c"])) [0; 2] /\
  (SetSelectedIndices [0; 2] ;;; SetSelectedIndices [1; 9])
      (NewListBox ["a"; "b"; "c"]) =
    SetSelectedIndices [1; 9] (NewListBox ["a"; "b"; "c"]).
Proof.
  assert (H : Forall (in_range (NewListBox ["a"; "b"; "c"])) [0; 2])
    by (repeat constructor; simpl; lia).
  split; [exact H|].
  exact (X5_SetSelectedIndices_last_wins (NewListBox ["a"; "b"; "c"])
           [0; 2] [1; 9] H).
Defined.

(** X6. [SetSelectedIndices] depends on the indices as a set only: two
    slices of in-range indices with the same elements, in any order and
    with any repetitions, leave the same ListBox. *)
Theorem X6_SetSelectedIndices_set_only
    (c : listBoxImpl) (a b : list Z) :
  Forall (in_range c) a ->
  (forall i, In i a <-> In i b) ->
  SetSelectedIndices a c = SetSelectedIndices b c.
Proof.
  intros Ha Hab.
  assert (Hb : Forall (in_range c) b).
  { apply List.Forall_forall. intros i Hi. apply Hab in Hi.
    rewrite List.Forall_forall in Ha. exact (Ha i Hi). }
  rewrite (SetSelectedIndices_in_range a c Ha),
          (SetSelectedIndices_in_range b c Hb).
  f_equal. f_equal.
  assert (Hr : forall l, Forall (in_range c) l ->
    Forall (fun i => 0 <= i <
      Z.of_nat (length (replicate (length (selected c)) false))) l).
  { intros l Hl. eapply Forall_impl; [exact Hl|].
    intros z Hz. unfold in_range in Hz. rewrite length_replicate. exact Hz. }
  apply flags_eq; [rewrite !select_all_length; reflexivity|].
  intros k. rewrite !select_all_lookup by (apply Hr; assumption).
  rewrite (Hab (Z.of_nat k)). reflexivity.
Qed.

(** The same two indices, reordered and with one repeated. *)
Lemma X6_witness :
  Forall (in_range (NewListBox ["a"; "b"; "c"])) [0; 2] /\
  (forall i, In i [0; 2] <-> In i [2; 0; 2]) /\
  SetSelectedIndices [0; 2] (NewListBox ["a"; "b"; "c"]) =
    SetSelectedIndices [2; 0; 2] (NewListBox ["a"; "b"; "c"]).
Proof.
  assert (H : Forall (in_range (NewListBox ["a"; "b"; "c"])) [0; 2])
    by (repeat constructor; simpl; lia).
  assert (H' : forall i, In i [0; 2] <-> In i [2; 0; 2])
    by (intros i; simpl; tauto).
  split; [exact H|]. split; [exact H'|].
  exact (X6_SetSelectedIndices_set_only (NewListBox ["a"; "b"; "c"])
           [0; 2] [2; 0; 2] H H').
Defined.

End ListBoxReads.

Section ListBoxEvents.
Import Go ListBox.

Lemma SetSelectedIndices_returns_iff indices c :
  fst (SetSelectedIndices indices c) = Returned tt <->
  Forall (in_range c) indices.
Proof.
  split.
  - intros Hret.
    assert (Hdec : Decision (Forall (in_range c) indices))
      by (apply Forall_dec; intros i; unfold in_range; apply _).
    destruct Hdec as [Hall|Hnot]; [exact Hall|]. exfalso.
    rewrite SetSelectedIndices_unfold in Hret.
    set (c0 := with_selected _ c) in Hret.
    destruct (select_loop_panics indices c0) as (i & _ & _ & Hp).
    + intros Hall. apply Hnot. eapply Forall_impl; [exact Hall|].
      intros z Hz. unfold in_range in *. subst c0. simpl in Hz.
      rewrite length_replicate in Hz. exact Hz.
    + congruence.
  - intros Hall. rewrite SetSelectedIndices_in_range by exact Hall.
    reflexivity.
Qed.

(** X7. A non-empty submitted value acts as [SetSelectedIndices] on the
    indices its comma-separated pieces parse to: pieces [Atoi] rejects
    (empty, not a number, too large for an [int]) are skipped, the others
    are taken in order. *)
Theorem X7_preprocessEvent_is_SetSelectedIndices
    (w : word_size) (value : string) (c : listBoxImpl) :
  value <> EmptyString ->
  preprocessEvent w value c = SetSelectedIndices (parsed_indices w value) c.
Proof. apply preprocessEvent_parsed. Qed.

(** The value a select with the first and third option selected sends,
    with a piece that is no number in between. *)
Lemma X7_witness :
  "0,x,2," <> EmptyString /\
  parsed_indices W32 "0,x,2," = [0; 2] /\
  preprocessEvent W32 "0,x,2," (NewListBox ["a"; "b"; "c"]) =
    SetSelectedIndices [0; 2] (NewListBox ["a"; "b"; "c"]).
Proof.
  assert (H : "0,x,2," <> EmptyString) by discriminate.
  split; [exact H|]. split; [reflexivity|].
  exact (X7_preprocessEvent_is_SetSelectedIndices W32 "0,x,2,"
           (NewListBox ["a"; "b"; "c"]) H).
Defined.

(** X8. [preprocessEvent] returns exactly when the value is empty or every
    piece that parses is an index in range; a piece that parses to an index
    out of range (a negative one included) makes it panic. In either case
    the values, the flags and the length of the selection vector stay. *)
Theorem X8_preprocessEvent_returns_iff
    (w : word_size) (value : string) (c : listBoxImpl) :
  (fst (preprocessEvent w value c) = Returned tt <->
     value = EmptyString \/ Forall (in_range c) (parsed_indices w value)) /\
  same_shape c (snd (preprocessEvent w value c)).
Proof.
  split; [|apply preprocessEvent_shape].
  destruct value as [|ch rest].
  - split; [intros _; left; reflexivity | reflexivity].
  - rewrite preprocessEvent_parsed by discriminate.
    rewrite SetSelectedIndices_returns_iff.
    split; [intros H; right; exact H | intros [H|H]; [discriminate H | exact H]].
Qed.

(** With three values the submitted values "3" and "-1" panic. *)
Example preprocessEvent_out_of_range :
  fst (preprocessEvent W64 "3" (NewListBox ["a"; "b"; "c"])) =
    Panicked (IndexOutOfRange 3 3) /\
  fst (preprocessEvent W64 "1,-1" (NewListBox ["a"; "b"; "c"])) =
    Panicked (IndexOutOfRange (-1) 3).
Proof. split; reflexivity. Qed.

End ListBoxEvents.

Section ListBoxRender.
Import Go ListBox ListBoxMarkup.

Lemma append_empty_r (s : string) : s +:+ "" = s.
Proof.
  induction s as [|ch s IH]; [reflexivity|].
  exact (f_equal (String ch) IH).
Qed.

Lemma Writes_run s w : Writes s w = (Returned tt, w +:+ s).
Proof. reflexivity. Qed.

Lemma bind_Writes {B} s (k : M writer B) w :
  (Writes s ;;; k) w = k (w +:+ s).
Proof. reflexivity. Qed.

(** The loop of [Render] over the values from index [i] on, against the
    flags from index [i] on. *)
Lemma render_options_ok E c : forall vs i w,
  (i + length vs <= length (selected c))%nat ->
  for_each (enumerate_from i vs) (render_option E c) w =
    (Returned tt, w +:+ options_markup E vs (drop i (selected c))).
Proof.
  induction vs as [|v vs IH]; intros i w Hlen; simpl.
  - unfold ret. rewrite append_empty_r. reflexivity.
  - simpl in Hlen.
    destruct (lookup_lt_is_Some_2 (selected c) i) as [s Hs]; [lia|].
    rewrite (drop_S _ _ _ Hs).
    unfold bind at 1. unfold render_option at 1. simpl. rewrite Hs.
    rewrite !bind_Writes, Writes_run.
    rewrite IH by lia. f_equal.
    unfold option_markup. rewrite !append_assoc. reflexivity.
Qed.

Lemma render_options_panics E c : forall vs i w,
  (i <= length (selected c))%nat ->
  (length (selected c) < i + length vs)%nat ->
  fst (for_each (enumerate_from i vs) (render_option E c) w) =
    Panicked (IndexOutOfRange (Z.of_nat (length (selected c)))
                              (length (selected c))).
Proof.
  induction vs as [|v vs IH]; intros i w Hi Hlen; simpl in *; [lia|].
  unfold bind at 1. unfold render_option at 1. simpl.
  destruct (selected c !! i) as [s|] eqn:Hs.
  - apply lookup_lt_Some in Hs.
    rewrite !bind_Writes, Writes_run. apply IH; lia.
  - apply lookup_ge_None in Hs.
    replace i with (length (selected c)) by lia. reflexivity.
Qed.


(** X9. [Render] of a ListBox returns exactly when there is a selection
    flag for every value, as the invariant says; it then writes the opening
    tag, one option element per value in order, marked selected where the
    flag is set, and the closing tag, after what the writer held. With
    fewer flags than values it panics at the first value without a flag. *)
Theorem X9_Render_options
    (E : render_env) (c : listBoxImpl) (w : writer) :
  (fst (Render E c w) = Returned tt <->
     (length (values c) <= length (selected c))%nat) /\
  (selection_invariant c ->
     Render E c w =
       (Returned tt,
        w +:+ select_open E c
          +:+ options_markup E (values c) (selected c) +:+ "</select>")) /\
  ((length (selected c) < length (values c))%nat ->
     fst (Render E c w) =
       Panicked (IndexOutOfRange (Z.of_nat (length (selected c)))
                                 (length (selected c)))).
Proof.
  assert (Hok : (length (values c) <= length (selected c))%nat ->
    Render E c w =
      (Returned tt,
       w +:+ select_open E c
         +:+ options_markup E (values c) (selected c) +:+ "</select>")).
  { intros Hlen. unfold Render, select_open.
    rewrite bind_Writes.
    assert (Hmulti : forall (k : M writer unit) w0,
      ((if multi c then
          Writes (" multiple=" +:+ SessMonitor.dquote +:+ "multiple"
                    +:+ SessMonitor.dquote)
        else ret tt) ;;; k) w0 =
      k (w0 +:+ (if multi c then
                   " multiple=" +:+ SessMonitor.dquote +:+ "multiple"
                     +:+ SessMonitor.dquote
                 else ""))).
    { intros k w0. destruct (multi c); [reflexivity|].
      rewrite append_empty_r. reflexivity. }
    rewrite Hmulti, !bind_Writes.
    unfold bind. rewrite render_options_ok by (simpl; lia).
    rewrite drop_0, Writes_run, !append_assoc. reflexivity. }
  assert (Hbad : (length (selected c) < length (values c))%nat ->
    fst (Render E c w) =
      Panicked (IndexOutOfRange (Z.of_nat (length (selected c)))
                                (length (selected c)))).
  { intros Hlen.
    assert (Hloop : forall w0,
      fst ((for_each (enumerate_from 0 (values c)) (render_option E c) ;;;
            Writes "</select>") w0) =
        Panicked (IndexOutOfRange (Z.of_nat (length (selected c)))
                                  (length (selected c)))).
    { intros w0. unfold bind.
      pose proof (render_options_panics E c (values c) 0 w0
                    (Nat.le_0_l _) Hlen) as Hp.
      destruct (for_each _ _ _) as [[[]|p] w1]; simpl in *; congruence. }
    unfold Render. rewrite bind_Writes.
    destruct (multi c);
      [|unfold bind at 1; unfold ret at 1];
      rewrite !bind_Writes; apply Hloop. }
  split; [|split; [|exact Hbad]].
  - split.
    + intros Hret.
      destruct (le_lt_dec (length (values c)) (length (selected c)))
        as [Hle|Hlt]; [exact Hle|].
      rewrite (Hbad Hlt) in Hret. discriminate Hret.
    + intros Hle. rewrite (Hok Hle). reflexivity.
  - intros Hinv. apply Hok. unfold selection_invariant in Hinv. lia.
Qed.

End ListBoxRender.

(* ===================================================================== *)
(** * Numbers in decimal, and splitting *)
(* ===================================================================== *)

Section DecimalFacts.
Import Go.

Lemma digit_char_is_digit d :
  0 <= d <= 9 ->
  Str.is_digit (Str.digit_char d) = true /\
  Str.digit_value (Str.digit_char d) = d /\
  Str.digit_char d <> ","%char /\
  Str.digit_char d <> "+"%char /\ Str.digit_char d <> "-"%char.
Proof.
  intros Hd.
  assert (Hcases : d = 0 \/ d = 1 \/ d = 2 \/ d = 3 \/ d = 4 \/
                   d = 5 \/ d = 6 \/ d = 7 \/ d = 8 \/ d = 9) by lia.
  repeat (destruct Hcases as [->|Hcases]); try subst d;
    repeat split; try reflexivity; discriminate.
Qed.

(** Reading digits continues from the value read so far. *)
Lemma parse_digits_app ds : forall a rest v,
  parse_digits 0 ds = Some v ->
  parse_digits a (ds +:+ rest) =
    parse_digits (a * 10 ^ Z.of_nat (String.length ds) + v) rest.
Proof.
  assert (Hacc : forall ds a v, parse_digits a ds = Some v ->
    forall b rest,
      parse_digits (a + b) (ds +:+ rest) =
        parse_digits (v + b * 10 ^ Z.of_nat (String.length ds)) rest).
  { clear ds. induction ds as [|ch ds IH]; intros a v Hv b rest.
    - cbn [parse_digits] in Hv. inversion Hv; subst.
      change (EmptyString +:+ rest) with rest.
      change (Z.of_nat (String.length EmptyString)) with 0.
      rewrite Z.pow_0_r. f_equal. lia.
    - cbn [parse_digits String.length] in *.
      change (String ch ds +:+ rest) with (String ch (ds +:+ rest)).
      cbn [parse_digits].
      destruct (Str.is_digit ch); [|discriminate Hv].
      replace (10 * (a + b) + Str.digit_value ch)
        with ((10 * a + Str.digit_value ch) + 10 * b) by lia.
      rewrite (IH _ _ Hv). f_equal.
      rewrite Nat2Z.inj_succ, Z.pow_succ_r by lia. lia. }
  intros a rest v Hv.
  replace a with (0 + a) at 1 by lia.
  rewrite (Hacc ds 0 v Hv a rest). f_equal. lia.
Qed.

Lemma digits_of_S fuel n acc :
  Str.digits_of (S fuel) n acc =
    if n / 10 =? 0 then String (Str.digit_char (n mod 10)) acc
    else Str.digits_of fuel (n / 10) (String (Str.digit_char (n mod 10)) acc).
Proof. reflexivity. Qed.

Lemma digits_of_spec fuel : forall n acc,
  0 <= n < 2 ^ Z.of_nat (S fuel) ->
  exists c ds,
    Str.digits_of (S fuel) n acc = String c ds +:+ acc /\
    Str.is_digit c = true /\
    parse_digits 0 (String c ds) = Some n.
Proof.
  induction fuel as [|fuel IH]; intros n acc Hn;
    rewrite digits_of_S;
    assert (Hd : 0 <= n mod 10 <= 9)
      by (pose proof (Z.mod_pos_bound n 10); lia);
    destruct (digit_char_is_digit _ Hd) as (Hdig & Hval & _);
    (destruct (Z.eqb_spec (n / 10) 0) as [Hq|Hq];
     [ exists (Str.digit_char (n mod 10)), EmptyString;
       split; [reflexivity|]; split; [exact Hdig|];
       cbn [parse_digits]; rewrite Hdig, Hval; f_equal;
       pose proof (Z.div_mod n 10); lia |]).
  - exfalso. apply Hq. apply Z.div_small.
    change (2 ^ Z.of_nat 1) with 2 in Hn. lia.
  - assert (Hn' : 0 <= n / 10 < 2 ^ Z.of_nat (S fuel)).
    { split; [apply Z.div_pos; lia|].
      rewrite (Nat2Z.inj_succ (S fuel)), Z.pow_succ_r in Hn by lia.
      apply Z.div_lt_upper_bound; lia. }
    destruct (IH (n / 10) (String (Str.digit_char (n mod 10)) acc) Hn')
      as (c & ds & Heq & Hc & Hparse).
    exists c, (ds +:+ String (Str.digit_char (n mod 10)) EmptyString).
    split; [|split; [exact Hc|]].
    + rewrite Heq.
      change (String c ds +:+ String (Str.digit_char (n mod 10)) acc)
        with (String c (ds +:+ String (Str.digit_char (n mod 10)) acc)).
      change (String c (ds +:+ String (Str.digit_char (n mod 10)) "") +:+ acc)
        with (String c ((ds +:+ String (Str.digit_char (n mod 10)) "") +:+ acc)).
      f_equal. rewrite append_assoc. reflexivity.
    + change (String c (ds +:+ String (Str.digit_char (n mod 10)) ""))
        with (String c ds +:+ String (Str.digit_char (n mod 10)) "").
      rewrite (parse_digits_app _ 0 _ _ Hparse).
      cbn [parse_digits]. rewrite Hdig, Hval. f_equal.
      pose proof (Z.div_mod n 10). lia.
Qed.

(** The digits [Itoa] writes for a number that is not negative. *)
Lemma itoa_digits n :
  0 <= n ->
  exists c ds,
    Str.itoa n = String c ds /\ Str.is_digit c = true /\
    parse_digits 0 (String c ds) = Some n.
Proof.
  intros Hn. unfold Str.itoa.
  replace (n <? 0) with false by (symmetry; apply Z.ltb_ge; lia).
  rewrite Z.abs_eq by lia.
  destruct (digits_of_spec (Z.to_nat (Z.log2 n)) n EmptyString)
    as (c & ds & Heq & Hc & Hparse).
  - split; [lia|]. rewrite Nat2Z.inj_succ, Z2Nat.id by apply Z.log2_nonneg.
    destruct (Z.eq_dec n 0) as [->|Hne]; [reflexivity|].
    apply Z.log2_spec. lia.
  - exists c, ds. rewrite Heq, append_empty_r. auto.
Qed.

Lemma Atoi_minus w c ds :
  Atoi w (String "-"%char (String c ds)) =
    match parse_digits 0 (String c ds) with
    | None => inr ErrSyntax
    | Some un =>
        if 2 ^ (IntSize w - 1) <? un then inr ErrRange else inl (- un)
    end.
Proof. reflexivity. Qed.

(** [Atoi] reads back what [Itoa] writes, for every [int]. *)
Lemma Atoi_itoa w n :
  - 2 ^ (IntSize w - 1) <= n < 2 ^ (IntSize w - 1) ->
  Atoi w (Str.itoa n) = inl n.
Proof.
  intros Hn.
  assert (Hdigit_sign : forall c, Str.is_digit c = true ->
    Ascii.eqb c "+"%char = false /\ Ascii.eqb c "-"%char = false).
  { intros c Hc. split; apply Ascii.eqb_neq; intros ->; discriminate Hc. }
  destruct (Z_lt_dec n 0) as [Hneg|Hpos].
  - destruct (itoa_digits (- n)) as (c & ds & Heq & Hc & Hparse); [lia|].
    unfold Str.itoa in *.
    replace (n <? 0) with true by (symmetry; apply Z.ltb_lt; lia).
    replace (- n <? 0) with false in Heq by (symmetry; apply Z.ltb_ge; lia).
    rewrite Z.abs_opp in Heq. rewrite Heq, Atoi_minus, Hparse.
    replace (2 ^ (IntSize w - 1) <? - n) with false
      by (symmetry; apply Z.ltb_ge; lia).
    f_equal. lia.
  - destruct (itoa_digits n) as (c & ds & Heq & Hc & Hparse); [lia|].
    rewrite Heq. unfold Atoi.
    destruct (Hdigit_sign c Hc) as [-> ->]. rewrite Hparse.
    replace (2 ^ (IntSize w - 1) <=? n) with false
      by (symmetry; apply Z.leb_gt; lia).
    reflexivity.
Qed.

Lemma parse_digits_no_comma s : forall a v,
  parse_digits a s = Some v -> Page.contains ","%char s = false.
Proof.
  induction s as [|c s IH]; intros a v Hv; [reflexivity|].
  cbn [parse_digits Page.contains] in *.
  destruct (Str.is_digit c) eqn:Hc; [|discriminate Hv].
  rewrite (IH _ _ Hv), orb_false_r.
  apply Ascii.eqb_neq. intros ->. discriminate Hc.
Qed.

Lemma itoa_no_comma n : 0 <= n -> Page.contains ","%char (Str.itoa n) = false.
Proof.
  intros Hn. destruct (itoa_digits n Hn) as (c & ds & -> & _ & Hparse).
  exact (parse_digits_no_comma _ _ _ Hparse).
Qed.

(** ** Splitting *)

Lemma split_String sep c rest :
  Str.split sep (String c rest) =
    if Ascii.eqb c sep then EmptyString :: Str.split sep rest
    else match Str.split sep rest with
         | [] => [String c EmptyString]
         | piece :: pieces => String c piece :: pieces
         end.
Proof. reflexivity. Qed.

(** A separator ends the last piece of what is before it. *)
Lemma split_app sep a b :
  Str.split sep (a +:+ String sep b) = Str.split sep a ++ Str.split sep b.
Proof.
  induction a as [|c a IH].
  - change (EmptyString +:+ String sep b) with (String sep b).
    rewrite split_String, Ascii.eqb_refl. reflexivity.
  - change (String c a +:+ String sep b) with (String c (a +:+ String sep b)).
    rewrite !split_String, IH.
    destruct (Ascii.eqb c sep); [reflexivity|].
    pose proof (split_not_nil sep a) as Hne.
    destruct (Str.split sep a) as [|p ps]; [contradiction | reflexivity].
Qed.

Lemma split_no_sep sep a :
  Page.contains sep a = false -> Str.split sep a = [a].
Proof.
  induction a as [|c a IH]; intros Hno; [reflexivity|].
  cbn [Page.contains] in Hno.
  apply orb_false_iff in Hno as [Hc Ha].
  rewrite split_String, Hc, (IH Ha). reflexivity.
Qed.

(** [split] takes apart what [join] put together, when no field holds the
    separator and there is at least one field. *)
Lemma split_join sep f fields :
  Forall (fun x => Page.contains sep x = false) (f :: fields) ->
  Str.split sep (Page.join sep (f :: fields)) = f :: fields.
Proof.
  revert f. induction fields as [|g fields IH]; intros f Hall.
  - inversion Hall; subst. apply split_no_sep. assumption.
  - inversion Hall as [|? ? Hf Hrest]; subst.
    change (Page.join sep (f :: g :: fields))
      with (f +:+ String sep (Page.join sep (g :: fields))).
    rewrite split_app, (split_no_sep sep f Hf), (IH g Hrest). reflexivity.
Qed.

End DecimalFacts.

(* ===================================================================== *)
(** * From the select element to the ListBox *)
(* ===================================================================== *)

Section SelectedIndicesOnTheWire.
Import Go ListBox Page.

Lemma selIdxs_from_acc options : forall i acc,
  selIdxs_from i options acc = acc +:+ selIdxs_from i options "".
Proof.
  induction options as [|o rest IH]; intros i acc; cbn [selIdxs_from].
  - rewrite append_empty_r. reflexivity.
  - destruct o; [|apply IH].
    rewrite (IH (i + 1) (acc +:+ Str.itoa i +:+ ",")),
            (IH (i + 1) ("" +:+ Str.itoa i +:+ ",")).
    change ("" +:+ Str.itoa i +:+ ",") with (Str.itoa i +:+ ",").
    rewrite !append_assoc. reflexivity.
Qed.

(** What [selIdxs] builds splits into the decimal forms of the selected
    indices and one empty piece after the last comma. *)
Lemma split_selIdxs_from options : forall j : nat,
  Str.split ","%char (selIdxs_from (Z.of_nat j) options "") =
    map Str.itoa (SelectedIndices_from j options []) ++ [EmptyString].
Proof.
  induction options as [|o rest IH]; intros j; [reflexivity|].
  cbn [selIdxs_from]. rewrite SelectedIndices_from_cons.
  replace (Z.of_nat j + 1) with (Z.of_nat (S j)) by lia.
  destruct o; [|apply IH].
  rewrite selIdxs_from_acc.
  change ("" +:+ Str.itoa (Z.of_nat j) +:+ ",")
    with (Str.itoa (Z.of_nat j) +:+ ",").
  rewrite append_assoc.
  change ("," +:+ selIdxs_from (Z.of_nat (S j)) rest "")
    with (String ","%char (selIdxs_from (Z.of_nat (S j)) rest "")).
  rewrite split_app, IH, split_no_sep by (apply itoa_no_comma; lia).
  reflexivity.
Qed.

Lemma SelectedIndices_from_bound options j x :
  In x (SelectedIndices_from j options []) ->
  Z.of_nat j <= x < Z.of_nat (j + length options).
Proof.
  intros Hx. apply SelectedIndices_from_In in Hx as (n & -> & Hn).
  apply lookup_lt_Some in Hn. lia.
Qed.

Lemma parsed_indices_selIdxs w options :
  Z.of_nat (length options) <= 2 ^ (IntSize w - 1) ->
  parsed_indices w (selIdxs options) = SelectedIndices_from 0 options [].
Proof.
  intros Hlen. unfold parsed_indices, selIdxs.
  pose proof (split_selIdxs_from options 0) as Hsplit.
  change (Z.of_nat 0) with 0 in Hsplit. rewrite Hsplit, flat_map_app.
  change (Atoi w "") with (@inr Z NumError ErrSyntax).
  cbn [flat_map]. rewrite !app_nil_r.
  assert (Hall : forall x, In x (SelectedIndices_from 0 options []) ->
                           0 <= x < 2 ^ (IntSize w - 1)).
  { intros x Hx. apply SelectedIndices_from_bound in Hx. simpl in Hx. lia. }
  revert Hall. generalize (SelectedIndices_from 0 options []).
  intros l. induction l as [|x l IH]; intros Hall; [reflexivity|].
  cbn [map flat_map]. rewrite Atoi_itoa.
  - simpl. f_equal. apply IH. intros y Hy. apply Hall. right. exact Hy.
  - specialize (Hall x (or_introl eq_refl)). lia.
Qed.

Lemma select_all_positions (sel : list bool) :
  select_all (replicate (length sel) false) (SelectedIndices_from 0 sel []) = sel.
Proof.
  apply flags_eq; [rewrite select_all_length, length_replicate; reflexivity|].
  intros k. rewrite select_all_lookup.
  - rewrite length_replicate, SelectedIndices_from_In. split.
    + intros [Hf|[_ (n & Hn & Htrue)]].
      * apply lookup_replicate in Hf as [Hf _]. discriminate Hf.
      * replace k with n by lia. exact Htrue.
    + intros Htrue. right. split; [apply lookup_lt_Some in Htrue; exact Htrue|].
      exists k. split; [reflexivity | exact Htrue].
  - apply List.Forall_forall. intros x Hx.
    apply SelectedIndices_from_bound in Hx.
    rewrite length_replicate. simpl in Hx. lia.
Qed.

(** X10. Round trip from the browser to the server: the value [selIdxs]
    builds for a select element with at least one option selected makes
    [preprocessEvent] return and leaves the ListBox with exactly the
    options' flags as its selection vector, when the select has as many
    options as the ListBox has flags (its length fits an [int]). *)
Theorem X10_selIdxs_preprocessEvent
    (w : word_size) (c : listBoxImpl) (options : list bool) :
  length options = length (selected c) ->
  Z.of_nat (length options) <= 2 ^ (IntSize w - 1) ->
  In true options ->
  preprocessEvent w (selIdxs options) c =
    (Returned tt, with_selected options c).
Proof.
  intros Hlen Hint Hsome.
  assert (Hpos : SelectedIndices_from 0 options [] <> []).
  { apply list_elem_of_In, list_elem_of_lookup in Hsome as [n Hn].
    intros Hnil.
    assert (Hin : In (Z.of_nat (0 + n)) (SelectedIndices_from 0 options [])).
    { apply SelectedIndices_from_In. exists n. split; [reflexivity|].
      exact Hn. }
    rewrite Hnil in Hin. exact Hin. }
  assert (Hne : selIdxs options <> EmptyString).
  { intros Hempty.
    pose proof (split_selIdxs_from options 0) as Hsplit.
    change (selIdxs_from (Z.of_nat 0) options "") with (selIdxs options) in Hsplit.
    rewrite Hempty in Hsplit.
    destruct (SelectedIndices_from 0 options []) as [|x l]; [contradiction|].
    destruct l; discriminate Hsplit. }
  rewrite preprocessEvent_parsed by exact Hne.
  rewrite parsed_indices_selIdxs by exact Hint.
  rewrite SetSelectedIndices_in_range.
  - rewrite <- Hlen, select_all_positions. reflexivity.
  - apply List.Forall_forall. intros x Hx.
    apply SelectedIndices_from_bound in Hx. unfold in_range.
    rewrite <- Hlen. simpl in Hx. lia.
Qed.

(** The first and the third of three options selected. *)
Lemma X10_witness :
  length [true; false; true] = length (selected (NewListBox ["a"; "b"; "c"])) /\
  Z.of_nat (length [true; false; true]) <= 2 ^ (IntSize W32 - 1) /\
  In true [true; false; true] /\
  selIdxs [true; false; true] = "0,2," /\
  preprocessEvent W32 (selIdxs [true; false; true]) (NewListBox ["a"; "b"; "c"])
    = (Returned tt,
       with_selected [true; false; true] (NewListBox ["a"; "b"; "c"])).
Proof.
  assert (H1 : length [true; false; true] =
               length (selected (NewListBox ["a"; "b"; "c"]))) by reflexivity.
  assert (H2 : Z.of_nat (length [true; false; true]) <= 2 ^ (IntSize W32 - 1))
    by (simpl; lia).
  assert (H3 : In true [true; false; true]) by (left; reflexivity).
  split; [exact H1|]. split; [exact H2|]. split; [exact H3|].
  split; [reflexivity|].
  exact (X10_selIdxs_preprocessEvent W32 (NewListBox ["a"; "b"; "c"])
           [true; false; true] H1 H2 H3).
Defined.

Lemma selIdxs_none n : forall i, selIdxs_from i (replicate n false) "" = "".
Proof. induction n as [|n IH]; intros i; [reflexivity | apply IH]. Qed.

(** X11. When no option is selected [selIdxs] builds the empty string, and
    [preprocessEvent] returns on the empty value before it clears
    anything: the ListBox keeps the selection it had, so deselecting every
    option does not reach the server. *)
Theorem X11_deselect_all_keeps_selection
    (w : word_size) (c : listBoxImpl) (n : nat) :
  selIdxs (replicate n false) = EmptyString /\
  preprocessEvent w (selIdxs (replicate n false)) c = (Returned tt, c).
Proof.
  unfold selIdxs. rewrite selIdxs_none. split; reflexivity.
Qed.

(** A counter the runtime turns into text prints as [Itoa] prints it. *)
Example counter_to_string :
  forallb (fun i => String.eqb (Js.NumberToString (Js.of_Z (Z.of_nat i)))
                               (Str.itoa (Z.of_nat i)))
          (seq 0 1000) = true.
Proof. vm_compute. reflexivity. Qed.

End SelectedIndicesOnTheWire.

(* ===================================================================== *)
(** * More about the client runtime *)
(* ===================================================================== *)

Section ResponseFacts.
Import Js Client Page.

Variables noAction reloadWin dirtyComps focusComp : Number.
Variable pathApp : string.

(** X12. [procEresp] handles the actions of a response one after the
    other, each on its own: what it does on two responses joined by a
    semicolon is what it does on the first followed by what it does on the
    second. *)
Theorem X12_procEresp_in_order (a b : string) :
  procEresp noAction reloadWin dirtyComps focusComp pathApp
            (a +:+ String ";"%char b) =
    procEresp noAction reloadWin dirtyComps focusComp pathApp a ++
    procEresp noAction reloadWin dirtyComps focusComp pathApp b.
Proof.
  rewrite !procEresp_always_loops, split_app, map_app, concat_app.
  reflexivity.
Qed.

Lemma procAction_alerts action msg :
  In (Alert msg)
     (procAction noAction reloadWin dirtyComps focusComp pathApp action) ->
  exists n0, msg = "Unknown response code:" +:+ n0.
Proof.
  unfold procAction.
  destruct (Str.split ","%char action) as [|n0 rest].
  - intros [H|[]]. inversion H. exists "undefined". reflexivity.
  - destruct (PrimFloat.eqb (parseInt n0) dirtyComps).
    { intros Hin. apply in_map_iff in Hin as (x & Hx & _). discriminate Hx. }
    destruct (PrimFloat.eqb (parseInt n0) focusComp).
    { destruct rest; [intros [] | intros [H|[]]; discriminate H]. }
    destruct (PrimFloat.eqb (parseInt n0) noAction); [intros []|].
    destruct (PrimFloat.eqb (parseInt n0) reloadWin).
    { destruct rest as [|n1 rest]; [intros [H|[]]; discriminate H|].
      destruct (0 <? String.length n1)%nat; intros [H|[]]; discriminate H. }
    intros [H|[]]. inversion H. exists n0. reflexivity.
Qed.

(** X13. The alert "No response received!" is never shown: [split] gives
    at least one piece, so the test on the number of actions never holds;
    every alert [procEresp] shows is an "Unknown response code:" one. *)
Theorem X13_no_response_alert_is_dead (responseText msg : string) :
  In (Alert msg)
     (procEresp noAction reloadWin dirtyComps focusComp pathApp responseText) ->
  msg <> "No response received!" /\
  exists n0, msg = "Unknown response code:" +:+ n0.
Proof.
  rewrite procEresp_always_loops. intros Hin.
  apply in_concat in Hin as (effects & Heff & Hin).
  apply in_map_iff in Heff as (action & <- & _).
  destruct (procAction_alerts action msg Hin) as (n0 & ->).
  split; [discriminate | exists n0; reflexivity].
Qed.

Lemma contains_append ch a b :
  contains ch (a +:+ b) = contains ch a || contains ch b.
Proof.
  induction a as [|c a IH]; [reflexivity|].
  change (String c a +:+ b) with (String c (a +:+ b)).
  cbn [contains]. rewrite IH, orb_assoc. reflexivity.
Qed.

Lemma contains_join ch sep fields :
  Ascii.eqb sep ch = false ->
  Forall (fun x => contains ch x = false) fields ->
  contains ch (join sep fields) = false.
Proof.
  intros Hsep Hall. induction Hall as [|f fields Hf Hrest IH]; [reflexivity|].
  destruct fields as [|g fields]; [exact Hf|].
  change (join sep (f :: g :: fields))
    with (f +:+ String sep (join sep (g :: fields))).
  rewrite contains_append, Hf. cbn [contains orb]. rewrite Hsep, IH.
  reflexivity.
Qed.

(** X14. Decoding a dirty-components directive: when the first field of an
    action reads as the dirty-components code, [procEresp] re-renders the
    components named by the other fields, all of them, once each and in the
    order given, and does nothing else (no field holds a comma or a
    semicolon). *)
Theorem X14_dirty_comps_decoded (code : string) (ids : list string) :
  Forall (fun x => contains ","%char x = false /\ contains ";"%char x = false)
         (code :: ids) ->
  PrimFloat.eqb (parseInt code) dirtyComps = true ->
  procEresp noAction reloadWin dirtyComps focusComp pathApp
            (join ","%char (code :: ids)) = map RerenderComp ids.
Proof.
  intros Hall Hcode.
  assert (Hcomma : Forall (fun x => contains ","%char x = false) (code :: ids))
    by (eapply Forall_impl; [exact Hall | intros x [H _]; exact H]).
  assert (Hsemi : Forall (fun x => contains ";"%char x = false) (code :: ids))
    by (eapply Forall_impl; [exact Hall | intros x [_ H]; exact H]).
  rewrite procEresp_always_loops.
  rewrite (split_no_sep ";"%char)
    by (apply contains_join; [reflexivity | exact Hsemi]).
  cbn [map concat]. rewrite app_nil_r.
  unfold procAction. rewrite (split_join ","%char code ids Hcomma), Hcode.
  reflexivity.
Qed.

End ResponseFacts.

(** The directive 2,3,7,9 with 2 as the dirty-components code. *)
Lemma X14_witness :
  Forall (fun x => Page.contains ","%char x = false /\
                   Page.contains ";"%char x = false) ["2"; "3"; "7"; "9"] /\
  PrimFloat.eqb (Js.parseInt "2") 2%float = true /\
  Client.procEresp 0%float 1%float 2%float 3%float "/app/" "2,3,7,9" =
    [Client.RerenderComp "3"; Client.RerenderComp "7"; Client.RerenderComp "9"].
Proof.
  assert (H1 : Forall (fun x => Page.contains ","%char x = false /\
                   Page.contains ";"%char x = false) ["2"; "3"; "7"; "9"])
    by (repeat constructor).
  assert (H2 : PrimFloat.eqb (Js.parseInt "2") 2%float = true) by reflexivity.
  split; [exact H1|]. split; [exact H2|].
  exact (X14_dirty_comps_decoded 0%float 1%float 2%float 3%float "/app/"
           "2" ["3"; "7"; "9"] H1 H2).
Defined.

Section ResponseCodes.
Import Js Client Page.

(** X15. An action whose first field does not start with a number (its code
    reads as NaN) matches no directive, whatever the four codes are: the
    user gets one alert, "Unknown response code:" followed by that field,
    and nothing else is done for the action. *)
Theorem X15_unreadable_code_alerts
    (noAction reloadWin dirtyComps focusComp : Number) (pathApp : string)
    (n0 : string) (rest : list string) :
  Forall (fun x => contains ","%char x = false /\ contains ";"%char x = false)
         (n0 :: rest) ->
  parseInt n0 = NaN ->
  procEresp noAction reloadWin dirtyComps focusComp pathApp
            (join ","%char (n0 :: rest)) =
    [Alert ("Unknown response code:" +:+ n0)].
Proof.
  intros Hall Hnan.
  assert (Hcomma : Forall (fun x => contains ","%char x = false) (n0 :: rest))
    by (eapply Forall_impl; [exact Hall | intros x [H _]; exact H]).
  assert (Hsemi : Forall (fun x => contains ";"%char x = false) (n0 :: rest))
    by (eapply Forall_impl; [exact Hall | intros x [_ H]; exact H]).
  rewrite procEresp_always_loops.
  rewrite (split_no_sep ";"%char)
    by (apply contains_join; [reflexivity | exact Hsemi]).
  cbn [map concat]. rewrite app_nil_r.
  unfold procAction. rewrite (split_join ","%char n0 rest Hcomma), Hnan.
  rewrite !eqb_NaN_l. reflexivity.
Qed.

(** The alert the empty response brings up. *)
Lemma X13_witness :
  In (Alert "Unknown response code:")
     (procEresp 0%float 1%float 2%float 3%float "/app/" "") /\
  "Unknown response code:" <> "No response received!".
Proof.
  assert (H : In (Alert "Unknown response code:")
                 (procEresp 0%float 1%float 2%float 3%float "/app/" ""))
    by (left; reflexivity).
  split; [exact H|].
  exact (proj1 (X13_no_response_alert_is_dead 0%float 1%float 2%float 3%float
                  "/app/" "" "Unknown response code:" H)).
Defined.

(** An action whose code is a word. *)
Lemma X15_witness :
  Forall (fun x => contains ","%char x = false /\ contains ";"%char x = false)
         ["reload"; "5"] /\
  parseInt "reload" = NaN /\
  procEresp 0%float 1%float 2%float 3%float "/app/" "reload,5" =
    [Alert "Unknown response code:reload"].
Proof.
  assert (H1 : Forall (fun x => contains ","%char x = false /\
                                contains ";"%char x = false) ["reload"; "5"])
    by (repeat constructor).
  assert (H2 : parseInt "reload" = NaN) by reflexivity.
  split; [exact H1|]. split; [exact H2|].
  exact (X15_unreadable_code_alerts 0%float 1%float 2%float 3%float "/app/"
           "reload" ["5"] H1 H2).
Defined.

End ResponseCodes.

Section TimerMore.
Import Client Page.

Lemma changed_same js timeout repeat reset h :
  changed (mkTimer js timeout repeat reset h) js timeout repeat reset = false.
Proof.
  apply changed_false_iff. repeat split.
Qed.

(** X16. Setting a timer up twice is setting it up once: a second call of
    [setupTimer] with the same arguments makes no timer call and leaves the
    window as the first call left it. So the script a re-rendered component
    runs again neither restarts nor doubles its timer. *)
Theorem X16_setupTimer_idempotent
    (compId : Z) (js : string) (timeout : Z) (repeat act reset : bool)
    (w : window) :
  setupTimer compId js timeout repeat act reset
    (fst (setupTimer compId js timeout repeat act reset w)) =
  (fst (setupTimer compId js timeout repeat act reset w), []).
Proof.
  assert (Hinstalled : forall w0,
    setupTimer compId js timeout repeat true reset
      (fst (install compId js timeout repeat reset w0)) =
    (fst (install compId js timeout repeat reset w0), [])).
  { intros w0.
    rewrite (setupTimer_present _ _ _ _ _ _ _
               (mkTimer js timeout repeat reset (next_handle w0)))
      by (simpl; apply lookup_insert_eq).
    rewrite changed_same. reflexivity. }
  assert (Htorn : forall t,
    setupTimer compId js timeout repeat false reset
      (fst (teardown compId t w)) = (fst (teardown compId t w), [])).
  { intros t. rewrite setupTimer_absent; [reflexivity|].
    intros t'. apply teardown_clears_entry. }
  destruct (timers w !! compId) as [[|t]|] eqn:Ht.
  - rewrite (setupTimer_absent _ _ _ _ act _ w) by congruence.
    destruct act; [apply Hinstalled|].
    simpl. rewrite setupTimer_absent by congruence. reflexivity.
  - rewrite (setupTimer_present _ _ _ _ act _ w t Ht).
    destruct (changed t js timeout repeat reset) eqn:Hch, act;
      cbv beta iota delta [fst].
    + pose proof (Hinstalled (fst (teardown compId t w))) as H.
      exact H.
    + apply Htorn.
    + rewrite (setupTimer_present _ _ _ _ _ _ _ t Ht), Hch. reflexivity.
    + apply Htorn.
  - rewrite (setupTimer_absent _ _ _ _ act _ w) by congruence.
    destruct act; [apply Hinstalled|].
    simpl. rewrite setupTimer_absent by congruence. reflexivity.
Qed.

(** ** Other components *)

Lemma empty_window_distinct : handles_distinct empty_window.
Proof. intros c c' t t' H. simpl in H. rewrite lookup_empty in H. discriminate H. Qed.

Lemma teardown_distinct compId t w :
  handles_distinct w -> handles_distinct (fst (teardown compId t w)).
Proof.
  intros Hd c c' t1 t2 H1 H2 Hid. simpl in H1, H2.
  destruct (decide (compId = c)) as [<-|Hc];
    [rewrite lookup_insert_eq in H1; discriminate H1|].
  destruct (decide (compId = c')) as [<-|Hc'];
    [rewrite lookup_insert_eq in H2; discriminate H2|].
  rewrite lookup_insert_ne in H1, H2 by assumption.
  exact (Hd c c' t1 t2 H1 H2 Hid).
Qed.

Lemma install_distinct compId js timeout repeat reset w :
  handles_in_sequence w -> handles_distinct w ->
  handles_distinct (fst (install compId js timeout repeat reset w)).
Proof.
  intros [_ Htab] Hd c c' t1 t2 H1 H2 Hid. simpl in H1, H2.
  destruct (decide (compId = c)) as [<-|Hc],
           (decide (compId = c')) as [<-|Hc']; [reflexivity| | |].
  - rewrite lookup_insert_eq in H1. rewrite lookup_insert_ne in H2 by assumption.
    inversion H1; subst t1. simpl in Hid.
    specialize (Htab c' t2 H2). lia.
  - rewrite lookup_insert_eq in H2. rewrite lookup_insert_ne in H1 by assumption.
    inversion H2; subst t2. simpl in Hid.
    specialize (Htab c t1 H1). lia.
  - rewrite lookup_insert_ne in H1, H2 by assumption.
    exact (Hd c c' t1 t2 H1 H2 Hid).
Qed.

Lemma teardown_frame compId t w c :
  well_formed w -> handles_distinct w ->
  timers w !! compId = Some (Obj t) -> c <> compId ->
  timers (fst (teardown compId t w)) !! c = timers w !! c /\
  timers_of (fst (teardown compId t w)) c = timers_of w c.
Proof.
  intros [Hown _] Hd Ht Hc. simpl. split; [apply lookup_insert_ne; congruence|].
  apply map_eq. intros h. unfold timers_of. simpl.
  destruct (decide (timer_id t = h)) as [<-|Hh].
  - rewrite map_lookup_filter, lookup_delete_eq. simpl.
    symmetry. apply map_lookup_filter_None. right.
    intros s Hs Howner. simpl in Howner.
    destruct (Hown _ _ Hs) as (t' & Ht' & Hid).
    rewrite Howner in Ht'. apply Hc. exact (Hd c compId t' t Ht' Ht Hid).
  - rewrite !map_lookup_filter, lookup_delete_ne by exact Hh. reflexivity.
Qed.

Lemma install_frame compId js timeout repeat reset w c :
  handles_in_sequence w -> c <> compId ->
  timers (fst (install compId js timeout repeat reset w)) !! c = timers w !! c /\
  timers_of (fst (install compId js timeout repeat reset w)) c = timers_of w c.
Proof.
  intros [Hact _] Hc. simpl. split; [apply lookup_insert_ne; congruence|].
  apply map_eq. intros h. unfold timers_of. simpl.
  destruct (decide (next_handle w = h)) as [<-|Hh].
  - rewrite map_lookup_filter, lookup_insert_eq. simpl.
    rewrite option_guard_False by (simpl; congruence).
    symmetry. apply map_lookup_filter_None. left.
    destruct (active w !! next_handle w) as [s|] eqn:Hs; [|reflexivity].
    specialize (Hact _ _ Hs). lia.
  - rewrite !map_lookup_filter, lookup_insert_ne by exact Hh. reflexivity.
Qed.


(** X17. [setupTimer] for one component leaves the others alone: in a
    well-formed window whose table entries hold different handles, the
    entry and the active timers of every other component id are after the
    call what they were before, and the handles on record are still all
    different. *)
Theorem X17_setupTimer_other_components
    (compId : Z) (js : string) (timeout : Z) (repeat act reset : bool)
    (w : window) :
  well_formed w -> handles_distinct w ->
  (forall c, c <> compId ->
     timers (fst (setupTimer compId js timeout repeat act reset w)) !! c =
       timers w !! c /\
     timers_of (fst (setupTimer compId js timeout repeat act reset w)) c =
       timers_of w c) /\
  handles_distinct (fst (setupTimer compId js timeout repeat act reset w)).
Proof.
  intros Hwf Hd.
  assert (Hseq : handles_in_sequence w) by apply Hwf.
  destruct (timers w !! compId) as [[|t]|] eqn:Ht.
  - rewrite setupTimer_absent by congruence.
    destruct act; [|split; [intros; split; reflexivity | exact Hd]].
    split; [intros c Hc; apply install_frame; assumption|].
    apply install_distinct; assumption.
  - rewrite (setupTimer_present _ _ _ _ _ _ _ t Ht).
    pose proof (teardown_well_formed compId t w Ht Hwf) as [_ Hseq1].
    pose proof (teardown_distinct compId t w Hd) as Hd1.
    destruct (changed t js timeout repeat reset), act;
      cbv beta iota delta [fst].
    + split; [|apply install_distinct; assumption].
      intros c Hc.
      destruct (teardown_frame compId t w c Hwf Hd Ht Hc) as [H1 H2].
      destruct (install_frame compId js timeout repeat reset
                  (fst (teardown compId t w)) c Hseq1 Hc) as [H3 H4].
      split; [exact (eq_trans H3 H1) | exact (eq_trans H4 H2)].
    + split; [intros c Hc; apply teardown_frame; assumption | exact Hd1].
    + split; [intros; split; reflexivity | exact Hd].
    + split; [intros c Hc; apply teardown_frame; assumption | exact Hd1].
  - rewrite setupTimer_absent by congruence.
    destruct act; [|split; [intros; split; reflexivity | exact Hd]].
    split; [intros c Hc; apply install_frame; assumption|].
    apply install_distinct; assumption.
Qed.

(** A window with a timer for component 7; the timer of component 8 is set
    up, changed and torn down beside it. *)
Lemma X17_witness :
  well_formed (fst (setupTimer 7 "a()" 500 true true false empty_window)) /\
  handles_distinct (fst (setupTimer 7 "a()" 500 true true false empty_window)) /\
  timers_of
    (fst (setupTimer 8 "b()" 100 false true false
            (fst (setupTimer 7 "a()" 500 true true false empty_window)))) 7 =
  timers_of (fst (setupTimer 7 "a()" 500 true true false empty_window)) 7.
Proof.
  assert (H1 : well_formed
    (fst (setupTimer 7 "a()" 500 true true false empty_window)))
    by (apply setupTimer_well_formed, empty_window_well_formed).
  assert (H2 : handles_distinct
    (fst (setupTimer 7 "a()" 500 true true false empty_window)))
    by (apply (install_distinct 7 "a()" 500 true false empty_window);
        [apply empty_window_well_formed | apply empty_window_distinct]).
  split; [exact H1|]. split; [exact H2|].
  refine (proj2 (proj1
    (X17_setupTimer_other_components 8 "b()" 100 false true false
       (fst (setupTimer 7 "a()" 500 true true false empty_window)) H1 H2)
    7 _)).
  discriminate.
Defined.

(** X18. A timer started with repeat false is not started again once it has
    fired: the table still holds its entry, so [setupTimer] with the same
    arguments and active true finds nothing changed and returns without a
    timer call, and the component stays without an active timer. *)
Theorem X18_fired_timeout_not_restarted
    (w : window) (compId : Z) (t : timer) (s : scheduled) :
  table_owns_active w ->
  timers w !! compId = Some (Obj t) ->
  active w !! timer_id t = Some s ->
  sched_repeat s = false ->
  timers_of (fire_timeout (timer_id t) w) compId = ∅ /\
  setupTimer compId (timer_js t) (timer_timeout t) (timer_repeat t) true
             (timer_reset t) (fire_timeout (timer_id t) w) =
    (fire_timeout (timer_id t) w, []).
Proof.
  intros Hown Ht Hs Hrep. unfold fire_timeout. rewrite Hs, Hrep. split.
  - apply map_empty. intros h. unfold timers_of. simpl.
    apply map_lookup_filter_None. right. intros s' Hs' Howner. simpl in Howner.
    apply lookup_delete_Some in Hs' as [Hne Hs'].
    destruct (Hown h s' Hs') as (t' & Ht' & Hid).
    rewrite Howner in Ht'. congruence.
  - rewrite (setupTimer_present _ _ _ _ _ _ _ t) by exact Ht.
    replace (changed t (timer_js t) (timer_timeout t) (timer_repeat t)
               (timer_reset t)) with false; [reflexivity|].
    symmetry. apply changed_false_iff. repeat split.
Qed.

(** A one-shot timer of component 7, fired. *)
Lemma X18_witness :
  table_owns_active
    (fst (setupTimer 7 "a()" 500 false true false empty_window)) /\
  setupTimer 7 "a()" 500 false true false
    (fire_timeout 1 (fst (setupTimer 7 "a()" 500 false true false empty_window)))
  = (fire_timeout 1 (fst (setupTimer 7 "a()" 500 false true false empty_window)),
     []).
Proof.
  assert (H : table_owns_active
    (fst (setupTimer 7 "a()" 500 false true false empty_window)))
    by (apply (setupTimer_well_formed 7 "a()" 500 false true false empty_window),
              empty_window_well_formed).
  split; [exact H|].
  exact (proj2
    (X18_fired_timeout_not_restarted
       (fst (setupTimer 7 "a()" 500 false true false empty_window)) 7
       (mkTimer "a()" 500 false false 1) (mkScheduled "a()" 500 false 7)
       H eq_refl eq_refl eq_refl)).
Defined.

End TimerMore.

Section MonitorMore.
Import Js Client.

Lemma existsb_add_other token other cl :
  token <> other ->
  existsb (String.eqb token) (classList_add other cl) =
    existsb (String.eqb token) cl.
Proof.
  intros Hne. unfold classList_add.
  destruct (existsb (String.eqb other) cl); [reflexivity|].
  rewrite existsb_app. cbn [existsb].
  replace (String.eqb token other) with false
    by (symmetry; apply String.eqb_neq; exact Hne).
  rewrite !orb_false_r. reflexivity.
Qed.

Lemma existsb_remove_other token other cl :
  token <> other ->
  existsb (String.eqb token) (classList_remove other cl) =
    existsb (String.eqb token) cl.
Proof.
  intros Hne. unfold classList_remove.
  induction cl as [|t cl IH]; [reflexivity|].
  cbn [List.filter existsb].
  destruct (String.eqb t other) eqn:Hto; cbn [negb existsb].
  - apply String.eqb_eq in Hto. subst t.
    replace (String.eqb token other) with false
      by (symmetry; apply String.eqb_neq; exact Hne).
    exact IH.
  - rewrite IH. reflexivity.
Qed.

Lemma classList_add_NoDup token cl :
  List.NoDup cl -> List.NoDup (classList_add token cl).
Proof.
  intros Hnd. unfold classList_add.
  destruct (existsb (String.eqb token) cl) eqn:Hex; [exact Hnd|].
  apply NoDup_ListNoDup, NoDup_app. apply NoDup_ListNoDup in Hnd.
  split; [exact Hnd|]. split; [|apply NoDup_singleton].
  intros x Hx Hx'. apply list_elem_of_singleton in Hx'. subst x.
  assert (Htrue : existsb (String.eqb token) cl = true).
  { apply existsb_exists. exists token.
    split; [apply list_elem_of_In; exact Hx | apply String.eqb_refl]. }
  congruence.
Qed.

Lemma classList_remove_NoDup token cl :
  List.NoDup cl -> List.NoDup (classList_remove token cl).
Proof. intros Hnd. apply List.NoDup_filter. exact Hnd. Qed.

(** X19. Showing the remaining time touches one class only: whatever the
    answer is, every class of the element other than
    gwu-SessMonitor-Expired is on the element afterwards exactly if it was
    before, and a class list without repetitions stays without. *)
Theorem X19_show_timeout_other_classes
    (timeoutSec : Number) (e : element) (token : string) :
  (token <> "gwu-SessMonitor-Expired" ->
     has_class token (show_timeout timeoutSec e) = has_class token e) /\
  (List.NoDup (classList e) ->
     List.NoDup (classList (show_timeout timeoutSec e))).
Proof.
  unfold show_timeout, has_class.
  destruct (PrimFloat.ltb timeoutSec 0); [|destruct (PrimFloat.ltb timeoutSec 60)];
    cbn [classList]; split;
    first [ apply existsb_add_other | apply existsb_remove_other
          | apply classList_add_NoDup | apply classList_remove_NoDup ].
Qed.

Lemma classList_add_twice token cl :
  classList_add token (classList_add token cl) = classList_add token cl.
Proof.
  unfold classList_add at 1. rewrite has_class_add. reflexivity.
Qed.

Lemma classList_remove_twice token cl :
  classList_remove token (classList_remove token cl) =
    classList_remove token cl.
Proof.
  unfold classList_remove. induction cl as [|t cl IH]; [reflexivity|].
  cbn [List.filter].
  destruct (String.eqb t token) eqn:Ht; cbn [negb]; [exact IH|].
  cbn [List.filter]. rewrite Ht. cbn [negb]. rewrite IH. reflexivity.
Qed.

(** X20. Polling again with the same answer changes nothing more: applying
    the same [timeoutSec] to the element twice gives the element one
    application gives, so the class list does not grow from poll to
    poll. *)
Theorem X20_show_timeout_idempotent (timeoutSec : Number) (e : element) :
  show_timeout timeoutSec (show_timeout timeoutSec e) =
    show_timeout timeoutSec e.
Proof.
  unfold show_timeout.
  destruct (PrimFloat.ltb timeoutSec 0); [|destruct (PrimFloat.ltb timeoutSec 60)];
    cbn [classList];
    rewrite ?classList_add_twice, ?classList_remove_twice; reflexivity.
Qed.

(** X21. [checkSession] when there is nothing to show: without the element
    it does nothing; while the request is not complete (readyState other
    than 4) or failed (status other than 200) the element is left as it
    is; and a response text that is no number reads as NaN, which is
    neither below 0 nor below 60, so the element loses the expired class
    and is labelled "~NaN min". *)
Theorem X21_checkSession_nothing_to_show (x : xmlhttp) (e : element) :
  checkSession None x = None /\
  (readyState x <> 4 \/ status x <> 200 -> checkSession (Some e) x = Some e) /\
  (readyState x = 4 -> status x = 200 -> parseFloat (responseText x) = NaN ->
     checkSession (Some e) x =
       Some {| classList :=
                 classList_remove "gwu-SessMonitor-Expired" (classList e);
               child0_innerText := "~NaN min" |}).
Proof.
  split; [reflexivity|]. split.
  - intros Hnot. unfold checkSession, checkSession_onreadystatechange.
    replace ((readyState x =? 4) && (status x =? 200)) with false;
      [reflexivity|].
    symmetry. apply andb_false_iff.
    destruct Hnot as [H|H]; [left | right]; apply Z.eqb_neq; exact H.
  - intros Hr Hs Hnan. unfold checkSession, checkSession_onreadystatechange.
    rewrite Hr, Hs, Hnan. reflexivity.
Qed.

End MonitorMore.

Section HandlerFacts.
Import Page.

Variable page : Type.

(** X22. Handlers added with [addonload] run in the order they were added,
    each once, after the handler the window had before (if it had one);
    none replaces another. [addonbeforeunload] does the same for its
    slot. *)
Theorem X22_addonload_in_order
    (funcs : list (handler page)) (slot : option (handler page)) (p : page) :
  run_slot page (fold_left (fun s f => addonload page f s) funcs slot) p =
    fold_left (fun q f => f q) funcs (run_slot page slot p) /\
  run_slot page
      (fold_left (fun s f => addonbeforeunload page f s) funcs slot) p =
    fold_left (fun q f => f q) funcs (run_slot page slot p).
Proof.
  split; revert slot; induction funcs as [|f funcs IH]; intros slot;
    try reflexivity; cbn [fold_left]; rewrite IH; destruct slot; reflexivity.
Qed.

End HandlerFacts.
